(** * miro-svg-dl: a shallow embedding of the bulk SVG exporter

    The script [miro-svg-dl.py] enumerates the items of a Miro board, probes
    a handful of candidate URLs per item for SVG content, derives a file
    name, and writes the download into an output directory.

    Modelling choices.
    - Python [str] values are Rocq strings; a character is an 8-bit code
      point (Latin-1), which is also how [requests] decodes header values.
      [bytes] are strings as well.
    - The remote side is an oracle indexed by the number of requests issued
      so far: a run is deterministic given the oracle, and every sequence of
      responses is some oracle.  An oracle may answer a request by raising.
    - Effects are threaded through a small monad: a state (request log,
      output directory, stderr, the three summary counters), an outcome
      (value, raised exception, or fuel exhausted) and the lines printed to
      stdout.  Printed lines are a datatype, one constructor per [print].
    - The generator [get_items] is embedded by internal iteration: the body
      of the consuming [for] loop is an argument and runs at every [yield].
      Its [while] loop takes fuel, one unit per page.
    - The output directory is a finite map from paths to contents; paths are
      strings and a write always succeeds.  [time.sleep], argument parsing
      and the creation of the directory are left out.
    - [print] comes twice.  In the first run of definitions every line is
      printed; module [Console] repeats the effectful part on a console that
      is an oracle too and may refuse a line, in which case [print] raises
      where it stands: inside a [try] block, inside a handler, or outside
      both. *)

From Stdlib Require Import ZArith Ascii String.
From stdpp Require Import gmap strings list fin_maps pretty.

Local Open Scope Z_scope.

(** ** Python string operations *)

Module PyStr.

Definition nonempty (s : string) : bool :=
  match s with EmptyString => false | String _ _ => true end.

(** [s.startswith(p)] *)
Fixpoint startswith (p s : string) : bool :=
  match p, s with
  | EmptyString, _ => true
  | String _ _, EmptyString => false
  | String a p', String b s' => Ascii.eqb a b && startswith p' s'
  end.

(** [sub in s] *)
Fixpoint contains (sub s : string) : bool :=
  startswith sub s ||
  match s with
  | EmptyString => false
  | String _ s' => contains sub s'
  end.

(** [s.endswith(suf)]: some tail of [s] is [suf]. *)
Fixpoint endswith (suf s : string) : bool :=
  String.eqb suf s ||
  match s with
  | EmptyString => false
  | String _ s' => endswith suf s'
  end.

(** [s[:n]] *)
Fixpoint take (n : nat) (s : string) : string :=
  match n, s with
  | O, _ => EmptyString
  | S _, EmptyString => EmptyString
  | S n', String c s' => String c (take n' s')
  end.

Fixpoint map (f : ascii -> ascii) (s : string) : string :=
  match s with
  | EmptyString => EmptyString
  | String c s' => String (f c) (map f s')
  end.

(** [c.isspace()] on code points below 256. *)
Definition isspace (c : ascii) : bool :=
  let n := N_of_ascii c in
  ((9 <=? n) && (n <=? 13) || (28 <=? n) && (n <=? 32)
   || (n =? 133) || (n =? 160))%N.

(** [c.lower()] on code points below 256: A-Z, and the accented capitals
    0xC0-0xDE other than the multiplication sign 0xD7. *)
Definition lower_char (c : ascii) : ascii :=
  let n := N_of_ascii c in
  if ((65 <=? n) && (n <=? 90)
      || (192 <=? n) && (n <=? 222) && negb (n =? 215))%N
  then ascii_of_N (n + 32) else c.

Definition lower : string -> string := map lower_char.

(** [s.lstrip(chars)], [s.rstrip(chars)], [s.strip(chars)], the character
    set given as a predicate. *)
Fixpoint lstrip (f : ascii -> bool) (s : string) : string :=
  match s with
  | EmptyString => EmptyString
  | String c s' => if f c then lstrip f s' else s
  end.

Fixpoint rstrip (f : ascii -> bool) (s : string) : string :=
  match s with
  | EmptyString => EmptyString
  | String c s' =>
      match rstrip f s' with
      | EmptyString => if f c then EmptyString else String c EmptyString
      | r => String c r
      end
  end.

Definition strip (f : ascii -> bool) (s : string) : string :=
  rstrip f (lstrip f s).

(** [s.split(c)[0]] for a one-character separator. *)
Fixpoint split_head (c : ascii) (s : string) : string :=
  match s with
  | EmptyString => EmptyString
  | String a s' => if Ascii.eqb a c then EmptyString
                   else String a (split_head c s')
  end.

(** [s[:s.rfind(sep)]] when [sep] occurs in [s]. *)
Fixpoint rfind_head (sep s : string) : option string :=
  match s with
  | EmptyString => if startswith sep EmptyString then Some EmptyString else None
  | String c s' =>
      match rfind_head sep s' with
      | Some h => Some (String c h)
      | None => if startswith sep s then Some EmptyString else None
      end
  end.

(** [s.rsplit(sep, 1)[0]] *)
Definition rsplit1_head (sep s : string) : string :=
  default s (rfind_head sep s).

(** The longest prefix of [s] whose characters all satisfy [f], and what
    follows it. *)
Fixpoint span (f : ascii -> bool) (s : string) : string * string :=
  match s with
  | EmptyString => (EmptyString, EmptyString)
  | String c s' =>
      if f c then let '(a, b) := span f s' in (String c a, b)
      else (EmptyString, s)
  end.

(** Drop [p] from the front of [s], when [s] starts with it. *)
Fixpoint drop_prefix (p s : string) : option string :=
  match p, s with
  | EmptyString, _ => Some s
  | String _ _, EmptyString => None
  | String a p', String b s' =>
      if Ascii.eqb a b then drop_prefix p' s' else None
  end.

End PyStr.

Definition dquote : ascii := ascii_of_nat 34.

(** Line 160: [replace] of a newline by a space, on one character. *)
Definition newline_to_space (c : ascii) : ascii :=
  if Ascii.eqb c (ascii_of_nat 10) then " "%char else c.

(** ** Pure parts of the script *)

Definition API_ROOT : string := "https://api.miro.com/v2".

(** Line 29: the URL of the first page. *)
Definition first_page_url (board_id item_type : string) : string :=
  API_ROOT +:+ "/boards/" +:+ board_id +:+ "/items?type=" +:+ item_type
    +:+ "&limit=50".

(** Line 44: the URL of a follow-up page. *)
Definition next_page_url (board_id cursor : string) : string :=
  API_ROOT +:+ "/boards/" +:+ board_id +:+ "/items?cursor=" +:+ cursor.

(** Lines 119-126. *)
Definition base_url (src : string) : string := PyStr.split_head "?" src.

Definition candidate_urls (src : string) : list string :=
  let base_url := base_url src in
  [ base_url +:+ "?format=original&redirect=true";
    base_url +:+ "?redirect=true";
    base_url +:+ "?format=original";
    base_url;
    src ].

(** Lines 115-126: nothing is tried for an empty [src]. *)
Definition download_urls_to_try (src : string) : list string :=
  if PyStr.nonempty src then candidate_urls src else [].

(** Lines 146-151; [and] binds tighter than [or]. *)
Definition is_svg_content (content_type text : string) : bool :=
  PyStr.contains "svg" content_type
  || (PyStr.startswith "<?xml" (PyStr.strip PyStr.isspace text)
      && PyStr.contains "svg" (PyStr.take 200 text))
  || PyStr.startswith "<svg" (PyStr.strip PyStr.isspace text)
  || PyStr.contains "image/svg" content_type.

(** Line 183: the character class of the substitution. *)
Definition illegal_char (c : ascii) : bool :=
  match c with
  | "<" | ">" | ":" | "/" | "\" | "|" | "?" | "*" => true
  | _ => Ascii.eqb c dquote
  end%char.

Definition replace_illegal (c : ascii) : ascii :=
  if illegal_char c then "_"%char else c.

Definition dot_or_space (c : ascii) : bool :=
  match c with "." | " " => true | _ => false end%char.

(** Lines 183-190. *)
Definition safe_filename (original_filename : string) : string :=
  let safe_filename := PyStr.map replace_illegal original_filename in
  let safe_filename := PyStr.strip dot_or_space safe_filename in
  if negb (PyStr.endswith ".svg" (PyStr.lower safe_filename))
  then safe_filename +:+ ".svg"
  else safe_filename.

(** Lines 67-73: the two regular expressions, leftmost match first.
    The quoted form: after the key and an opening double quote, at least one
    character other than a double quote, then a closing double quote. *)
Definition quoted_at (s : string) : option string :=
  match PyStr.drop_prefix ("filename=" +:+ String dquote EmptyString) s with
  | Some rest =>
      let '(name, after) := PyStr.span (fun c => negb (Ascii.eqb c dquote)) rest in
      if PyStr.nonempty name && PyStr.startswith (String dquote EmptyString) after
      then Some name else None
  | None => None
  end.

(** The unquoted form: after the key, the longest non-empty run of
    characters other than a semicolon. *)
Definition unquoted_at (s : string) : option string :=
  match PyStr.drop_prefix "filename=" s with
  | Some rest =>
      let '(name, _) := PyStr.span (fun c => negb (Ascii.eqb c ";")) rest in
      if PyStr.nonempty name then Some name else None
  | None => None
  end.

(** [re.search]: the match at the leftmost position that has one. *)
Fixpoint re_search (at_pos : string -> option string) (s : string)
  : option string :=
  match at_pos s with
  | Some g => Some g
  | None =>
      match s with
      | EmptyString => None
      | String _ s' => re_search at_pos s'
      end
  end.

(** Lines 65-73, given the header value. *)
Definition filename_from_disposition (content_disposition : string)
  : option string :=
  if PyStr.nonempty content_disposition then
    match re_search quoted_at content_disposition with
    | Some name => Some name
    | None =>
        match re_search unquoted_at content_disposition with
        | Some name => Some (PyStr.strip PyStr.isspace name)
        | None => None
        end
    end
  else None.

(** ** The remote side, the state and the effect monad *)

Inductive method := GET | HEAD.

(** Every request carries the bearer token set on the session. *)
Record request := Request {
  req_method : method;
  req_url : string;
  req_authorization : string }.

(** An item as the listing returns it: [item["id"]] and
    [item["data"]["imageUrl"]], strings when present. *)
Record item := Item {
  item_id : option string;
  item_imageUrl : option string }.

(** The decoded body of a listing page: [data.get("data", [])] and
    [data.get("cursor")]. *)
Record page := Page {
  page_data : list item;
  page_cursor : option string }.

Record response := Response {
  status_code : Z;
  headers : list (string * string);
  text : string;
  content : string;
  json : option page }.

(** The answer to the request issued after [n] earlier ones; [None] when
    [requests] raises instead (connection error, timeout, bad URL). *)
Definition remote := nat -> request -> option response.

(** [r.headers.get(name, "")]: header names compare case-insensitively; a
    name occurs at most once in the headers of a response. *)
Fixpoint headers_get (name : string) (hs : list (string * string)) : string :=
  match hs with
  | [] => EmptyString
  | (k, v) :: hs' =>
      if String.eqb (PyStr.lower k) (PyStr.lower name) then v
      else headers_get name hs'
  end.

(** Line 140. *)
Definition content_type (r : response) : string :=
  PyStr.lower (headers_get "content-type" (headers r)).

(** Line 153: the test that ends the probing of an item. *)
Definition probe_matched (test_resp : response) : bool :=
  (status_code test_resp =? 200)
  && is_svg_content (content_type test_resp) (text test_resp).

Inductive exn :=
| RuntimeError (status : Z) (url body : string)
| RequestException (rq : request)
| JSONDecodeError
| HTTPError (status : Z)
| KeyError (key : string)
| UnicodeEncodeError.

(** One constructor per [print] call to stdout or stderr. *)
Inductive log_line :=
| LScanning (item_type : string)
| LFoundItem (item_type item_id src : string)
| LTrying (test_url : string)
| LStatus (status : Z) (ctype : string)
| LFoundSvg
| LPreview (preview : string)
| LProbeError
| LNoSvg
| LOriginalFilename (name : string)
| LUsingItemId
| LConflictResolved (filename : string)
| LSaved (dest : string)
| LFailedDownload (src : string) (e : exn)
| LTotalItems (item_type : string) (item_count : nat)
| LDone (total_saved : nat) (out_dir : string)
| LKeptOriginal (n : nat)
| LUsedGenerated (n : nat).

Record state := State {
  requests : list request;
  files : gmap string string;
  stderr : list log_line;
  total_saved : nat;
  files_with_original_names : nat;
  files_with_generated_names : nat }.

Inductive result (A : Type) :=
| Ok (a : A)
| Raise (e : exn)
| OutOfFuel.
Arguments Ok {A} a.
Arguments Raise {A} e.
Arguments OutOfFuel {A}.

(** State, outcome, and the lines written to stdout. *)
Definition M (A : Type) : Type := state -> result A * state * list log_line.

Definition ret {A} (a : A) : M A := fun st => (Ok a, st, []).

Definition bind {A B} (m : M A) (k : A -> M B) : M B :=
  fun st =>
    match m st with
    | (Ok a, st1, out1) =>
        let '(r, st2, out2) := k a st1 in (r, st2, out1 ++ out2)
    | (Raise e, st1, out1) => (Raise e, st1, out1)
    | (OutOfFuel, st1, out1) => (OutOfFuel, st1, out1)
    end.

Notation "x <- m ;; k" := (bind m (fun x => k))
  (at level 100, m at next level, right associativity).
Notation "m ;;; k" := (bind m (fun _ => k))
  (at level 100, right associativity).

Definition raise {A} (e : exn) : M A := fun st => (Raise e, st, []).
Definition out_of_fuel {A} : M A := fun st => (OutOfFuel, st, []).

(** [try: m except Exception as e: h e] *)
Definition try_except {A} (m : M A) (h : exn -> M A) : M A :=
  fun st =>
    match m st with
    | (Raise e, st1, out1) =>
        let '(r, st2, out2) := h e st1 in (r, st2, out1 ++ out2)
    | other => other
    end.

Definition print (l : log_line) : M unit := fun st => (Ok tt, st, [l]).

Definition print_stderr (l : log_line) : M unit :=
  fun st =>
    (Ok tt,
     State (requests st) (files st) (stderr st ++ [l]) (total_saved st)
       (files_with_original_names st) (files_with_generated_names st),
     []).

Definition get_state : M state := fun st => (Ok st, st, []).

Definition write_bytes (dest data : string) : M unit :=
  fun st =>
    (Ok tt,
     State (requests st) (<[dest := data]> (files st)) (stderr st)
       (total_saved st) (files_with_original_names st)
       (files_with_generated_names st),
     []).

(** [total_saved += 1] and one of the two name counters. *)
Definition count_saved (original : bool) : M unit :=
  fun st =>
    (Ok tt,
     State (requests st) (files st) (stderr st) (S (total_saved st))
       (if original then S (files_with_original_names st)
        else files_with_original_names st)
       (if original then files_with_generated_names st
        else S (files_with_generated_names st)),
     []).

Fixpoint for_each {A} (l : list A) (body : A -> M unit) : M unit :=
  match l with
  | [] => ret tt
  | x :: l' => body x ;;; for_each l' body
  end.

(** A [for] loop that threads a local variable. *)
Fixpoint for_fold {A S} (l : list A) (body : A -> S -> M S) (acc : S) : M S :=
  match l with
  | [] => ret acc
  | x :: l' => acc' <- body x acc ;; for_fold l' body acc'
  end.

Record Args := MkArgs {
  board : string;
  token : string;
  out : string;
  include_docs : bool;
  quiet : bool }.

Section Run.

Variable server : remote.

(** Issue a request: the oracle answers, the request is logged. *)
Definition send (rq : request) : M (option response) :=
  fun st =>
    (Ok (server (length (requests st)) rq),
     State (requests st ++ [rq]) (files st) (stderr st) (total_saved st)
       (files_with_original_names st) (files_with_generated_names st),
     []).

Definition bearer (token : string) : string := "Bearer " +:+ token.

(** Lines 24-47.  [fuel] bounds the number of pages requested. *)
Fixpoint get_items_from {S} (fuel : nat) (board_id token url : string)
    (body : item -> S -> M S) (acc : S) : M S :=
  match fuel with
  | O => out_of_fuel
  | Datatypes.S fuel' =>
      r <- send (Request GET url (bearer token)) ;;
      match r with
      | None => raise (RequestException (Request GET url (bearer token)))
      | Some resp =>
          if negb (status_code resp =? 200)
          then raise (RuntimeError (status_code resp) url (text resp))
          else
            match json resp with
            | None => raise JSONDecodeError
            | Some data =>
                acc' <- for_fold (page_data data) body acc ;;
                match page_cursor data with
                | Some cursor =>
                    if PyStr.nonempty cursor
                    then get_items_from fuel' board_id token
                           (next_page_url board_id cursor) body acc'
                    else ret acc'
                | None => ret acc'
                end
            end
      end
  end.

Definition get_items {S} (fuel : nat) (board_id token item_type : string)
    (body : item -> S -> M S) (acc : S) : M S :=
  get_items_from fuel board_id token (first_page_url board_id item_type)
    body acc.

(** [raise_for_status]: client and server errors raise. *)
Definition raise_for_status (r : response) : M unit :=
  if (400 <=? status_code r) && (status_code r <? 600)
  then raise (HTTPError (status_code r)) else ret tt.

(** Lines 49-55. *)
Definition download (token url dest : string) : M unit :=
  r <- send (Request GET url (bearer token)) ;;
  match r with
  | None => raise (RequestException (Request GET url (bearer token)))
  | Some r => raise_for_status r ;;; write_bytes dest (content r)
  end.

(** Lines 57-76: every exception is swallowed. *)
Definition get_filename_from_headers (token url : string)
  : M (option string) :=
  r <- send (Request HEAD url (bearer token)) ;;
  match r with
  | None => ret None
  | Some r =>
      if status_code r =? 200
      then ret (filename_from_disposition
                  (headers_get "content-disposition" (headers r)))
      else ret None
  end.

Definition unless_quiet (args : Args) (l : log_line) : M unit :=
  if quiet args then ret tt else print l.

(** Python truthiness of an optional string: [None] and the empty string
    are false. *)
Definition truthy (o : option string) : option string :=
  match o with
  | Some s => if PyStr.nonempty s then Some s else None
  | None => None
  end.

(** Lines 129-166: the first candidate with status 200 and SVG content.
    An exception raised by the request is caught and the next candidate
    is tried. *)
Fixpoint probe (args : Args) (urls : list string) : M (option string) :=
  match urls with
  | [] => ret None
  | test_url :: rest =>
      unless_quiet args (LTrying test_url) ;;;
      r <- send (Request GET test_url (bearer (token args))) ;;
      match r with
      | None => unless_quiet args LProbeError ;;; probe args rest
      | Some test_resp =>
          unless_quiet args
            (LStatus (status_code test_resp) (content_type test_resp)) ;;;
          if probe_matched test_resp
          then unless_quiet args LFoundSvg ;;; ret (Some test_url)
          else
            (if status_code test_resp =? 200
             then unless_quiet args
                    (LPreview (PyStr.map newline_to_space
                                 (PyStr.take 100 (text test_resp))))
             else ret tt) ;;;
            probe args rest
      end
  end.

(** [out_dir / filename] *)
Definition path_join (out_dir filename : string) : string :=
  out_dir +:+ "/" +:+ filename.

(** Lines 205 and 207: the name tried at a given counter. *)
Definition numbered (stem : string) (counter : nat) : string :=
  stem +:+ "_" +:+ pretty counter +:+ ".svg".

(** Lines 197-209: the [while dest.exists()] loop; [fuel] bounds its
    iterations. *)
Fixpoint resolve_conflict (fuel : nat) (fs : gmap string string)
    (out_dir stem filename : string) (counter : nat) : option string :=
  match fs !! path_join out_dir filename with
  | None => Some filename
  | Some _ =>
      match fuel with
      | O => None
      | S fuel' =>
          resolve_conflict fuel' fs out_dir stem (numbered stem counter)
            (S counter)
      end
  end.

(** Lines 180-195: the file name, and the stem the conflict loop uses
    (lines 204 and 207). *)
Definition choose_filename (args : Args) (it : item)
    (original_filename : option string) : M (string * string) :=
  match original_filename with
  | Some name =>
      ret (safe_filename name,
           PyStr.rsplit1_head ".svg" (safe_filename name))
  | None =>
      match item_id it with
      | Some id => unless_quiet args LUsingItemId ;;; ret (id +:+ ".svg", id)
      | None => raise (KeyError "id")
      end
  end.

(** Lines 213-226. *)
Definition save (args : Args) (src dest : string) (original : bool)
  : M unit :=
  try_except
    (download (token args) src dest ;;;
     count_saved original ;;;
     unless_quiet args (LSaved dest))
    (fun e => print_stderr (LFailedDownload src e)).

(** Lines 173-226: what is done with an item once a candidate matched.
    The loop on line 202 gets one more iteration than there are files,
    which it cannot use up. *)
Definition save_matched_item (args : Args) (it : item) (src : string)
  : M unit :=
  original_filename <- get_filename_from_headers (token args) src ;;
  let original_filename := truthy original_filename in
  match original_filename with
  | Some name => unless_quiet args (LOriginalFilename name)
  | None => ret tt
  end ;;;
  names <- choose_filename args it original_filename ;;
  st <- get_state ;;
  match resolve_conflict (S (size (files st))) (files st) (out args)
          (snd names) (fst names) 1 with
  | None => out_of_fuel
  | Some filename =>
      let dest := path_join (out args) filename in
      (if String.eqb dest (path_join (out args) (fst names))
       then ret tt
       else unless_quiet args (LConflictResolved filename)) ;;;
      save args src dest (bool_decide (is_Some original_filename))
  end.

(** Lines 106-226: the body of the loop over items. *)
Definition process_item (args : Args) (item_type : string) (it : item)
  : M unit :=
  let src := default EmptyString (item_imageUrl it) in
  unless_quiet args
    (LFoundItem item_type (default "unknown" (item_id it)) src) ;;;
  successful_url <- probe args (download_urls_to_try src) ;;
  match truthy successful_url with
  | None => unless_quiet args LNoSvg
  | Some src => save_matched_item args it src
  end.

(** Line 97. *)
Definition scanned_types : list string :=
  ["image"; "document"; "shape"; "sticky_note"; "text"; "frame"; "app_card"].

(** Lines 103-105 and 227: one pass of the loop over item types. *)
Definition scan_type (fuel : nat) (args : Args) (item_type : string)
  : M unit :=
  print (LScanning item_type) ;;;
  item_count <- get_items fuel (board args) (token args) item_type
                  (fun it n => process_item args item_type it ;;; ret (S n))
                  O ;;
  print (LTotalItems item_type item_count).

(** Lines 229-232. *)
Definition summary (args : Args) : M unit :=
  st <- get_state ;;
  print (LDone (total_saved st) (out args)) ;;;
  if (0 <? total_saved st)%nat
  then print (LKeptOriginal (files_with_original_names st)) ;;;
       print (LUsedGenerated (files_with_generated_names st))
  else ret tt.

(** Lines 78-232, after argument parsing. *)
Definition main (fuel : nat) (args : Args) : M unit :=
  for_each scanned_types (scan_type fuel args) ;;;
  summary args.

(** A run starts with empty logs, zero counters and whatever the output
    directory already holds. *)
Definition initial_state (fs : gmap string string) : state :=
  State [] fs [] 0 0 0.

Definition run (fuel : nat) (args : Args) (fs : gmap string string)
  : result unit * state * list log_line :=
  main fuel args (initial_state fs).

End Run.

Definition outcome {A} (x : result A * state * list log_line) : result A :=
  fst (fst x).
Definition final {A} (x : result A * state * list log_line) : state :=
  snd (fst x).
Definition stdout {A} (x : result A * state * list log_line) : list log_line :=
  snd x.

(** ** The script on a console that can refuse a line

    [print] encodes the line for the stream it writes to and raises when the
    stream cannot take it, as the check mark of line 156 on a stream that
    is not UTF-8.  Which lines a stream takes is up to the environment: an
    oracle per stream.  The definitions are those of the section above with
    such a [print]; where a [print] stands inside a [try] block the block
    and its handler are written out. *)

Module Console.
Section Run.

Variable server : remote.
Variable stdout_accepts : log_line -> bool.
Variable stderr_accepts : log_line -> bool.

Definition print (l : log_line) : M unit :=
  fun st =>
    if stdout_accepts l then (Ok tt, st, [l])
    else (Raise UnicodeEncodeError, st, []).

Definition print_stderr (l : log_line) : M unit :=
  fun st =>
    if stderr_accepts l
    then (Ok tt,
          State (requests st) (files st) (stderr st ++ [l]) (total_saved st)
            (files_with_original_names st) (files_with_generated_names st),
          [])
    else (Raise UnicodeEncodeError, st, []).

Definition unless_quiet (args : Args) (l : log_line) : M unit :=
  if quiet args then ret tt else print l.

(** Lines 132-161: the [try] block up to the test of line 153 and, when the
    test fails, the [elif] of line 158.  The value tells whether the
    candidate matched. *)
Definition try_candidate (args : Args) (test_url : string) : M bool :=
  unless_quiet args (LTrying test_url) ;;;
  r <- send server (Request GET test_url (bearer (token args))) ;;
  match r with
  | None =>
      raise (RequestException (Request GET test_url (bearer (token args))))
  | Some test_resp =>
      unless_quiet args
        (LStatus (status_code test_resp) (content_type test_resp)) ;;;
      if probe_matched test_resp
      then ret true
      else
        (if status_code test_resp =? 200
         then unless_quiet args
                (LPreview (PyStr.map newline_to_space
                             (PyStr.take 100 (text test_resp))))
         else ret tt) ;;;
        ret false
  end.

(** Lines 163-166: the handler prints and goes on to the next candidate. *)
Definition probe_handler (args : Args) (e : exn) : M bool :=
  unless_quiet args LProbeError ;;; ret false.

(** Lines 129-166.  [successful_url] is the local variable of that name.
    Line 154 assigns it before line 156 prints and line 157 leaves the
    loop, all inside the [try] block: when that [print] raises, the variable
    stays assigned, the handler runs and the loop goes on. *)
Fixpoint probe (args : Args) (urls : list string)
    (successful_url : option string) : M (option string) :=
  match urls with
  | [] => ret successful_url
  | test_url :: rest =>
      matched <- try_except (try_candidate args test_url)
                   (probe_handler args) ;;
      if matched
      then (left_loop <- try_except
                           (unless_quiet args LFoundSvg ;;; ret true)
                           (probe_handler args) ;;
            if left_loop then ret (Some test_url)
            else probe args rest (Some test_url))
      else probe args rest successful_url
  end.

(** Lines 180-195. *)
Definition choose_filename (args : Args) (it : item)
    (original_filename : option string) : M (string * string) :=
  match original_filename with
  | Some name =>
      ret (safe_filename name,
           PyStr.rsplit1_head ".svg" (safe_filename name))
  | None =>
      match item_id it with
      | Some id => unless_quiet args LUsingItemId ;;; ret (id +:+ ".svg", id)
      | None => raise (KeyError "id")
      end
  end.

(** Lines 213-226: the [print] of line 224 is the last statement of the
    [try] block, that of line 226 is the handler. *)
Definition save (args : Args) (src dest : string) (original : bool)
  : M unit :=
  try_except
    (download server (token args) src dest ;;;
     count_saved original ;;;
     unless_quiet args (LSaved dest))
    (fun e => print_stderr (LFailedDownload src e)).

(** Lines 173-226. *)
Definition save_matched_item (args : Args) (it : item) (src : string)
  : M unit :=
  original_filename <- get_filename_from_headers server (token args) src ;;
  let original_filename := truthy original_filename in
  match original_filename with
  | Some name => unless_quiet args (LOriginalFilename name)
  | None => ret tt
  end ;;;
  names <- choose_filename args it original_filename ;;
  st <- get_state ;;
  match resolve_conflict (S (size (files st))) (files st) (out args)
          (snd names) (fst names) 1 with
  | None => out_of_fuel
  | Some filename =>
      let dest := path_join (out args) filename in
      (if String.eqb dest (path_join (out args) (fst names))
       then ret tt
       else unless_quiet args (LConflictResolved filename)) ;;;
      save args src dest (bool_decide (is_Some original_filename))
  end.

(** Lines 106-226. *)
Definition process_item (args : Args) (item_type : string) (it : item)
  : M unit :=
  let src := default EmptyString (item_imageUrl it) in
  unless_quiet args
    (LFoundItem item_type (default "unknown" (item_id it)) src) ;;;
  successful_url <- probe args (download_urls_to_try src) None ;;
  match truthy successful_url with
  | None => unless_quiet args LNoSvg
  | Some src => save_matched_item args it src
  end.

(** Lines 103-105 and 227. *)
Definition scan_type (fuel : nat) (args : Args) (item_type : string)
  : M unit :=
  print (LScanning item_type) ;;;
  item_count <- get_items server fuel (board args) (token args) item_type
                  (fun it n => process_item args item_type it ;;; ret (S n))
                  O ;;
  print (LTotalItems item_type item_count).

(** Lines 229-232. *)
Definition summary (args : Args) : M unit :=
  st <- get_state ;;
  print (LDone (total_saved st) (out args)) ;;;
  if (0 <? total_saved st)%nat
  then print (LKeptOriginal (files_with_original_names st)) ;;;
       print (LUsedGenerated (files_with_generated_names st))
  else ret tt.

(** Lines 78-232, after argument parsing. *)
Definition main (fuel : nat) (args : Args) : M unit :=
  for_each scanned_types (scan_type fuel args) ;;;
  summary args.

Definition run (fuel : nat) (args : Args) (fs : gmap string string)
  : result unit * state * list log_line :=
  main fuel args (initial_state fs).

End Run.
End Console.

(** ** Definitions used to state the properties *)

(** The classification rule in the words of the specification: status 200
    and one of four conditions, the body trimmed on the left only. *)
Definition classified_as_matched (r : response) : Prop :=
  status_code r = 200 ∧
  (PyStr.contains "svg" (content_type r) = true
   ∨ PyStr.contains "image/svg" (content_type r) = true
   ∨ (PyStr.startswith "<?xml" (PyStr.lstrip PyStr.isspace (text r)) = true
      ∧ PyStr.contains "svg" (PyStr.take 200 (text r)) = true)
   ∨ PyStr.startswith "<svg" (PyStr.lstrip PyStr.isspace (text r)) = true).

(** Every character of [s] satisfies [f]. *)
Fixpoint all_chars (f : ascii -> bool) (s : string) : bool :=
  match s with
  | EmptyString => true
  | String c s' => f c && all_chars f s'
  end.

(** The first character of [s], if any, is not in the set [f]. *)
Definition front_ok (f : ascii -> bool) (s : string) : Prop :=
  match s with
  | EmptyString => True
  | String c _ => f c = false
  end.

(** The state after some more requests were issued. *)
Definition add_requests (st : state) (rqs : list request) : state :=
  State (requests st ++ rqs) (files st) (stderr st) (total_saved st)
    (files_with_original_names st) (files_with_generated_names st).

(** The relation between the three summary counters. *)
Definition counters_ok (st : state) : Prop :=
  total_saved st
  = (files_with_original_names st + files_with_generated_names st)%nat.

(** A computation keeps an invariant of the state, however it ends. *)
Definition preserves {A} (I : state → Prop) (m : M A) : Prop :=
  ∀ st, I st → I (final (m st)).

(** Two computations end the same way in the same state from every state;
    only what they print may differ. *)
Definition same_effects {A} (m1 m2 : M A) : Prop :=
  ∀ st, fst (m1 st) = fst (m2 st).

(** The same, with what the two print related by [R]. *)
Definition related {A} (R : list log_line → list log_line → Prop)
    (m1 m2 : M A) : Prop :=
  ∀ st, fst (m1 st) = fst (m2 st) ∧ R (snd (m1 st)) (snd (m2 st)).

(** A relation on printed lines that running one computation after another
    respects. *)
Record log_relation (R : list log_line → list log_line → Prop) : Prop := {
  log_refl l : R l l;
  log_app l1 l2 k1 k2 : R l1 l2 → R k1 k2 → R (l1 ++ k1) (l2 ++ k2) }.

Definition with_quiet (q : bool) (args : Args) : Args :=
  MkArgs (board args) (token args) (out args) (include_docs args) q.

(** [list(get_items(...))]: a consumer that only collects what is yielded. *)
Definition collect (it : item) (acc : list item) : M (list item) :=
  ret (acc ++ [it]).

(** The pages a listing that starts at [url] runs through when its first
    request is the one issued after [n] earlier ones and nothing else is
    requested in between: each answer has status 200 and a decoded body,
    and the listing ends at the first page without a usable cursor. *)
Inductive page_chain (server : remote) (board_id token : string)
  : nat → string → list page → Prop :=
| chain_last n url resp data :
    server n (Request GET url (bearer token)) = Some resp →
    status_code resp = 200 →
    json resp = Some data →
    truthy (page_cursor data) = None →
    page_chain server board_id token n url [data]
| chain_more n url resp data cursor rest :
    server n (Request GET url (bearer token)) = Some resp →
    status_code resp = 200 →
    json resp = Some data →
    truthy (page_cursor data) = Some cursor →
    page_chain server board_id token (S n) (next_page_url board_id cursor) rest →
    page_chain server board_id token n url (data :: rest).

(** The URLs a listing requests: the first page, then one URL per cursor. *)
Definition listing_urls (board_id item_type : string) (pages : list page)
  : list string :=
  first_page_url board_id item_type
  :: omap (fun p => next_page_url board_id <$> truthy (page_cursor p)) pages.

(** Two argument records that name the same board, token and directory. *)
Definition same_target (a1 a2 : Args) : Prop :=
  board a1 = board a2 ∧ token a1 = token a2 ∧ out a1 = out a2.

(** Two argument records that differ at most in the quiet flag. *)
Definition same_but_quiet (a1 a2 : Args) : Prop :=
  same_target a1 a2 ∧ include_docs a1 = include_docs a2.

(** The GET request the script issues for [url]. *)
Definition get_request (args : Args) (url : string) : request :=
  Request GET url (bearer (token args)).

Definition head_request (args : Args) (url : string) : request :=
  Request HEAD url (bearer (token args)).


(** No original file name comes out of the HEAD request: it raised, its
    status is not 200, the header is absent, or nothing usable is parsed
    out of it. *)
Definition no_filename_recovered (o : option response) : Prop :=
  match o with
  | None => True
  | Some r =>
      status_code r ≠ 200
      ∨ headers_get "content-disposition" (headers r) = EmptyString
      ∨ truthy (filename_from_disposition
                  (headers_get "content-disposition" (headers r))) = None
  end.

(** How a computation ends and in which state, the printed lines left out. *)
Definition exec {A} (m : M A) (st : state) : result A * state := fst (m st).

(** What the invariant must tolerate: a longer request log, more on stderr,
    a counted file, and a file written to a path that was free in an
    earlier state that had the invariant. *)
Record frame_invariant (I : state → Prop) : Prop := {
  frame_requests st rqs :
    I st → I (State (requests st ++ rqs) (files st) (stderr st) (total_saved st)
                (files_with_original_names st) (files_with_generated_names st));
  frame_stderr st ls :
    I st → I (State (requests st) (files st) (stderr st ++ ls) (total_saved st)
                (files_with_original_names st) (files_with_generated_names st));
  frame_count st original :
    I st → I (final (count_saved original st));
  frame_write st0 st dest data :
    I st0 → files st0 !! dest = None → I st →
    I (State (requests st) (<[dest := data]> (files st)) (stderr st)
         (total_saved st) (files_with_original_names st)
         (files_with_generated_names st)) }.

(** [m'] does what [m] does wherever [m] does not run out of fuel. *)
Definition extends {A} (m m' : M A) : Prop :=
  ∀ st, outcome (m st) ≠ OutOfFuel → m' st = m st.

(** The three summary counters of a state. *)
Definition counters (st : state) : nat * nat * nat :=
  (total_saved st, files_with_original_names st, files_with_generated_names st).

(** ** Sample boards used to exercise the statements *)

Definition svg_body : string := "<svg xmlns='http://www.w3.org/2000/svg'/>".

Definition disposition (name : string) : string :=
  "attachment; filename=" +:+ String dquote (name +:+ String dquote EmptyString).

Definition listing_response (items : list item) (cursor : option string)
  : response :=
  Response 200 [("Content-Type", "application/json")] EmptyString EmptyString
    (Some (Page items cursor)).

Definition demo_args : Args := MkArgs "b1" "tok" "/out" false false.

(** A board with two image items and nothing else.  Of the candidates of an
    item only the one with [format=original] alone serves SVG; a HEAD
    request is answered with the given Content-Disposition headers. *)
Definition two_images (disp : list (string * string)) : remote :=
  fun _ rq =>
    match req_method rq with
    | HEAD => Some (Response 200 disp EmptyString EmptyString None)
    | GET =>
        if String.eqb (req_url rq) (first_page_url "b1" "image")
        then Some (listing_response
                     [Item (Some "42") (Some "https://r.miro.com/x?a=1");
                      Item (Some "43") (Some "https://r.miro.com/y")] None)
        else if PyStr.startswith API_ROOT (req_url rq)
        then Some (listing_response [] None)
        else if PyStr.endswith "?format=original" (req_url rq)
        then Some (Response 200 [("Content-Type", "text/plain")] svg_body
                     svg_body None)
        else Some (Response 404 [] "not found" "not found" None)
    end.

(** The listing of image items is refused; every other listing is empty. *)
Definition forbidden_images : remote :=
  fun _ rq =>
    if String.eqb (req_url rq) (first_page_url "b1" "image")
    then Some (Response 403 [] "Forbidden" "Forbidden" None)
    else Some (listing_response [] None).

(** Image items on two pages, linked by the cursor [c2]. *)
Definition two_pages : remote :=
  fun _ rq =>
    if String.eqb (req_url rq) (first_page_url "b1" "image")
    then Some (listing_response [Item (Some "1") None] (Some "c2"))
    else if String.eqb (req_url rq) (next_page_url "b1" "c2")
    then Some (listing_response [Item (Some "2") None] None)
    else Some (listing_response [] None).

(** A board without items. *)
Definition empty_board : remote :=
  fun _ _ => Some (listing_response [] None).

(** ** Definitions used to state further properties *)

(** The complement of the character class of line 183. *)
Definition legal_char (c : ascii) : bool := negb (illegal_char c).

Definition not_f (c : ascii) : bool := negb (Ascii.eqb c "f").

Definition not_quote (c : ascii) : bool := negb (Ascii.eqb c dquote).

Definition not_semicolon (c : ascii) : bool := negb (Ascii.eqb c ";").

(** What follows an unquoted name in a header: nothing, or a semicolon. *)
Definition ends_token (tail : string) : Prop :=
  match tail with
  | EmptyString => True
  | String c _ => c = ";"%char
  end.

(** What line 176 gets in state [st], as line 181 reads it: the name from
    the HEAD request for [src] when there is a non-empty one. *)
Definition head_filename (server : remote) (args : Args) (src : string)
    (st : state) : option string :=
  truthy
    match server (length (requests st)) (head_request args src) with
    | Some r =>
        if status_code r =? 200
        then filename_from_disposition
               (headers_get "content-disposition" (headers r))
        else None
    | None => None
    end.

(** Lines 181-193 without the printing: the file name and the stem, or
    nothing when the item has no identifier to fall back on. *)
Definition chosen_names (it : item) (original_filename : option string)
  : option (string * string) :=
  match original_filename with
  | Some name =>
      Some (safe_filename name, PyStr.rsplit1_head ".svg" (safe_filename name))
  | None =>
      match item_id it with
      | Some ident => Some (ident +:+ ".svg", ident)
      | None => None
      end
  end.


(** ** Definitions used to state properties of listings and of the console *)

(** The body of the loop over the items of one type (lines 105-226), with
    the count of line 105. *)
Definition count_item (server : remote) (args : Args) (item_type : string)
    (it : item) (n : nat) : M nat :=
  process_item server args item_type it ;;; ret (S n).

(** A listing that is at [url] in state [st] comes to a request that is
    answered with another status than 200: [url'] is requested in state
    [st'] and answered with [resp'].  Every page before it was answered with
    status 200 and a decoded body, its items were processed without an
    exception, and it named the next page by a usable cursor.  The first
    number counts the pages the listing may still request. *)
Inductive reaches_refusal {S} (server : remote) (board_id token : string)
    (body : item → S → M S)
  : nat → string → S → state → string → response → state → Prop :=
| refusal_here fuel url acc st resp :
    server (length (requests st)) (Request GET url (bearer token)) = Some resp →
    status_code resp ≠ 200 →
    reaches_refusal server board_id token body (Datatypes.S fuel) url acc st
      url resp st
| refusal_later fuel url acc st resp data acc' st1 cursor url' resp' st' :
    server (length (requests st)) (Request GET url (bearer token)) = Some resp →
    status_code resp = 200 →
    json resp = Some data →
    exec (for_fold (page_data data) body acc)
      (add_requests st [Request GET url (bearer token)]) = (Ok acc', st1) →
    truthy (page_cursor data) = Some cursor →
    reaches_refusal server board_id token body fuel
      (next_page_url board_id cursor) acc' st1 url' resp' st' →
    reaches_refusal server board_id token body (Datatypes.S fuel) url acc st
      url' resp' st'.

(** The lines that are printed only when the quiet flag is off: those of
    lines 112 to 224. *)
Definition per_item_line (l : log_line) : bool :=
  match l with
  | LFoundItem _ _ _ | LTrying _ | LStatus _ _ | LFoundSvg | LPreview _
  | LProbeError | LNoSvg | LOriginalFilename _ | LUsingItemId
  | LConflictResolved _ | LSaved _ => true
  | _ => false
  end.


(** A stream that takes every line. *)
Definition accepts_all (l : log_line) : bool := true.

(** A stdout encoded in Windows-1252, which has the bullet of lines 231 and
    232 but neither the check mark, the warning sign nor the cross of lines
    156, 165, 170 and 224. *)
Definition cp1252_console (l : log_line) : bool :=
  match l with
  | LFoundSvg | LProbeError | LNoSvg | LSaved _ | LFailedDownload _ _ => false
  | _ => true
  end.

(** The first page of image items is served and names a second page, which
    is refused with status 500. *)
Definition second_page_refused : remote :=
  fun _ rq =>
    if String.eqb (req_url rq) (first_page_url "b1" "image")
    then Some (listing_response [Item (Some "1") None] (Some "c2"))
    else if String.eqb (req_url rq) (next_page_url "b1" "c2")
    then Some (Response 500 [] "Internal Server Error" "Internal Server Error"
                 None)
    else Some (listing_response [] None).


(** A stdout that takes every line but the two that start with a bullet
    (lines 231 and 232). *)
Definition no_bullets (l : log_line) : bool :=
  match l with
  | LKeptOriginal _ | LUsedGenerated _ => false
  | _ => true
  end.

(** A stdout that refuses the check mark of line 156 and nothing else. *)
Definition no_check_mark (l : log_line) : bool :=
  match l with
  | LFoundSvg => false
  | _ => true
  end.

(** * Properties *)

(** ** Worked examples *)

Example candidate_urls_ex :
  candidate_urls "https://r.miro.com/x/1?fmt=preview" =
  [ "https://r.miro.com/x/1?format=original&redirect=true";
    "https://r.miro.com/x/1?redirect=true";
    "https://r.miro.com/x/1?format=original";
    "https://r.miro.com/x/1";
    "https://r.miro.com/x/1?fmt=preview" ].
Proof. reflexivity. Qed.

Example safe_filename_ex1 : safe_filename "a/b: c.SVG" = "a_b_ c.SVG".
Proof. reflexivity. Qed.

Example safe_filename_ex2 : safe_filename " .report. " = "report.svg".
Proof. reflexivity. Qed.

Example filename_from_disposition_ex1 :
  filename_from_disposition
    ("attachment; filename=" +:+ String dquote ("diagram.svg" +:+ String dquote EmptyString))
  = Some "diagram.svg".
Proof. reflexivity. Qed.

Example filename_from_disposition_ex2 :
  filename_from_disposition "attachment; filename= logo.svg ; size=3"
  = Some "logo.svg".
Proof. reflexivity. Qed.

Example safe_filename_ex3 : safe_filename "." = ".svg".
Proof. reflexivity. Qed.

Example filename_from_disposition_ex3 :
  filename_from_disposition "inline" = None.
Proof. reflexivity. Qed.

Example is_svg_content_ex :
  is_svg_content "text/html" "<html><body>svg</body></html>" = false.
Proof. reflexivity. Qed.

(** ** Strings *)

Lemma app_cons (c : ascii) (s1 s2 : string) :
  String c s1 +:+ s2 = String c (s1 +:+ s2).
Proof. reflexivity. Qed.

Lemma app_empty_l (s : string) : EmptyString +:+ s = s.
Proof. reflexivity. Qed.

Lemma app_inv_tail_str (a b c : string) : a +:+ c = b +:+ c → a = b.
Proof.
  intros H.
  assert (Hlen : ∀ x y, String.length (x +:+ y) = (String.length x + String.length y)%nat).
  { intros x y. induction x as [|z x IH]; [reflexivity|].
    rewrite app_cons. simpl. by rewrite IH. }
  revert b H. induction a as [|x a IH]; intros [|y b] H.
  - reflexivity.
  - apply (f_equal String.length) in H. rewrite app_empty_l, Hlen in H.
    simpl in H. lia.
  - apply (f_equal String.length) in H. rewrite app_empty_l, Hlen in H.
    simpl in H. lia.
  - rewrite !app_cons in H. injection H as -> H. f_equal. by apply IH.
Qed.

Lemma all_chars_app f a b :
  all_chars f (a +:+ b) = all_chars f a && all_chars f b.
Proof.
  induction a as [|c a IH]; [done|].
  rewrite app_cons. simpl. by rewrite IH, andb_assoc.
Qed.





Lemma endswith_app (suf a : string) : PyStr.endswith suf (a +:+ suf) = true.
Proof.
  induction a as [|c a IH].
  - rewrite app_empty_l. destruct suf; simpl; [done|].
    by rewrite Ascii.eqb_refl, String.eqb_refl.
  - rewrite app_cons. simpl. rewrite IH. apply orb_true_r.
Qed.

Lemma map_app (f : ascii → ascii) (a b : string) :
  PyStr.map f (a +:+ b) = PyStr.map f a +:+ PyStr.map f b.
Proof.
  induction a as [|c a IH]; [reflexivity|].
  rewrite app_cons. simpl. rewrite app_cons. by f_equal.
Qed.

(** *** Stripping *)

Lemma lstrip_front_ok f s : front_ok f (PyStr.lstrip f s).
Proof.
  induction s as [|c s IH]; simpl; [done|].
  destruct (f c) eqn:E; [done|]. exact E.
Qed.

Lemma lstrip_fixed f s : front_ok f s → PyStr.lstrip f s = s.
Proof. destruct s as [|c s]; simpl; [done|]. by intros ->. Qed.

Lemma rstrip_front_ok f s : front_ok f s → front_ok f (PyStr.rstrip f s).
Proof.
  destruct s as [|c s]; simpl; [done|]. intros Hc.
  rewrite Hc. by destruct (PyStr.rstrip f s).
Qed.

Lemma rstrip_idem f s : PyStr.rstrip f (PyStr.rstrip f s) = PyStr.rstrip f s.
Proof.
  induction s as [|c s IH]; simpl; [done|].
  destruct (PyStr.rstrip f s) as [|d r] eqn:E.
  - destruct (f c) eqn:Ec; simpl; [done|]. by rewrite Ec.
  - change (PyStr.rstrip f (String c (String d r)))
      with (match PyStr.rstrip f (String d r) with
            | EmptyString => if f c then EmptyString else String c EmptyString
            | r' => String c r'
            end).
    by rewrite IH.
Qed.

Lemma strip_idem f s : PyStr.strip f (PyStr.strip f s) = PyStr.strip f s.
Proof.
  unfold PyStr.strip.
  rewrite (lstrip_fixed f (PyStr.rstrip f (PyStr.lstrip f s))).
  - apply rstrip_idem.
  - apply rstrip_front_ok, lstrip_front_ok.
Qed.

Lemma strip_front_ok f s : front_ok f (PyStr.strip f s).
Proof. apply rstrip_front_ok, lstrip_front_ok. Qed.

Lemma rstrip_app f a b :
  PyStr.rstrip f b ≠ EmptyString →
  PyStr.rstrip f (a +:+ b) = a +:+ PyStr.rstrip f b.
Proof.
  intros Hb. induction a as [|c a IH]; [done|].
  rewrite !app_cons. simpl. rewrite IH.
  destruct (a +:+ PyStr.rstrip f b) as [|d r] eqn:E; [|done].
  destruct a; [|discriminate]. by rewrite app_empty_l in E.
Qed.

(** A prefix that ends in a character outside the stripped set is found in
    the right-stripped string exactly when it is found in the string. *)
Lemma startswith_rstrip f p u :
  p ≠ EmptyString → PyStr.rstrip f p = p →
  PyStr.startswith p (PyStr.rstrip f u) = PyStr.startswith p u.
Proof.
  revert p. induction u as [|c u IH]; intros p Hne Hp; [done|].
  destruct p as [|a p]; [done|].
  destruct p as [|b p].
  - simpl in Hp. destruct (f a) eqn:Ea; [done|].
    simpl. destruct (PyStr.rstrip f u) eqn:Eu.
    + destruct (f c) eqn:Ec; simpl.
      * destruct (Ascii.eqb_spec a c) as [->|]; [congruence|done].
      * by rewrite andb_true_r.
    + simpl. done.
  - assert (Hp' : PyStr.rstrip f (String b p) = String b p).
    { simpl in Hp. simpl.
      destruct (match PyStr.rstrip f p with
                | EmptyString => if f b then EmptyString else String b EmptyString
                | String a0 s => String b (String a0 s)
                end) eqn:E.
      - destruct (f a); discriminate.
      - congruence. }
    specialize (IH (String b p) ltac:(done) Hp').
    change (PyStr.startswith (String a (String b p)) (String c u))
      with (Ascii.eqb a c && PyStr.startswith (String b p) u).
    rewrite <- IH.
    simpl. destruct (PyStr.rstrip f u) eqn:Eu.
    + destruct (f c); simpl; by rewrite andb_false_r.
    + done.
Qed.

Lemma startswith_strip f p s :
  p ≠ EmptyString → PyStr.rstrip f p = p →
  PyStr.startswith p (PyStr.strip f s) = PyStr.startswith p (PyStr.lstrip f s).
Proof. intros. unfold PyStr.strip. by apply startswith_rstrip. Qed.

Lemma lstrip_empty_iff f s :
  PyStr.lstrip f s = EmptyString ↔ all_chars f s = true.
Proof.
  induction s as [|c s IH]; simpl; [done|].
  destruct (f c); simpl; [done|]. split; discriminate.
Qed.

Lemma rstrip_empty_front f s :
  front_ok f s → PyStr.rstrip f s = EmptyString → s = EmptyString.
Proof.
  destruct s as [|c s]; simpl; [done|]. intros ->.
  by destruct (PyStr.rstrip f s).
Qed.

Lemma strip_empty_iff f s :
  PyStr.strip f s = EmptyString ↔ all_chars f s = true.
Proof.
  rewrite <- lstrip_empty_iff. unfold PyStr.strip. split.
  - apply rstrip_empty_front, lstrip_front_ok.
  - by intros ->.
Qed.

Lemma front_ok_app f a b : a ≠ EmptyString → front_ok f a → front_ok f (a +:+ b).
Proof. by destruct a. Qed.

(** ** Sanitising a recovered file name *)

Lemma replace_illegal_idem c :
  replace_illegal (replace_illegal c) = replace_illegal c.
Proof. by destruct c as [[] [] [] [] [] [] [] []]. Qed.

Lemma dot_or_space_replace c :
  dot_or_space (replace_illegal c) = dot_or_space c.
Proof. by destruct c as [[] [] [] [] [] [] [] []]. Qed.

Lemma map_replace_idem s :
  PyStr.map replace_illegal (PyStr.map replace_illegal s)
  = PyStr.map replace_illegal s.
Proof.
  induction s as [|c s IH]; simpl; [done|].
  by rewrite replace_illegal_idem, IH.
Qed.

Lemma all_chars_map_replace s :
  all_chars dot_or_space (PyStr.map replace_illegal s)
  = all_chars dot_or_space s.
Proof.
  induction s as [|c s IH]; simpl; [done|].
  by rewrite dot_or_space_replace, IH.
Qed.

Lemma map_fixed_lstrip g f s :
  PyStr.map g s = s → PyStr.map g (PyStr.lstrip f s) = PyStr.lstrip f s.
Proof.
  induction s as [|c s IH]; simpl; [done|].
  intros H. injection H as Hc Hs.
  destruct (f c); [by apply IH|]. simpl. by rewrite Hc, Hs.
Qed.

Lemma map_fixed_rstrip g f s :
  PyStr.map g s = s → PyStr.map g (PyStr.rstrip f s) = PyStr.rstrip f s.
Proof.
  induction s as [|c s IH]; simpl; [done|].
  intros H. injection H as Hc Hs. specialize (IH Hs).
  destruct (PyStr.rstrip f s) as [|d r].
  - destruct (f c); simpl; [done|]. by rewrite Hc.
  - change (PyStr.map g (String c (String d r)))
      with (String (g c) (PyStr.map g (String d r))).
    by rewrite Hc, IH.
Qed.

Lemma map_fixed_strip g f s :
  PyStr.map g s = s → PyStr.map g (PyStr.strip f s) = PyStr.strip f s.
Proof. intros. by apply map_fixed_rstrip, map_fixed_lstrip. Qed.

Lemma safe_filename_unfold s :
  safe_filename s =
  let t := PyStr.strip dot_or_space (PyStr.map replace_illegal s) in
  if PyStr.endswith ".svg" (PyStr.lower t) then t else t +:+ ".svg".
Proof.
  unfold safe_filename. simpl.
  by destruct (PyStr.endswith _ _).
Qed.

(** A sanitised name that was not empty before the extension was added is
    left alone by each of the three steps. *)
Lemma safe_filename_stable t :
  t ≠ EmptyString →
  PyStr.map replace_illegal t = t →
  PyStr.strip dot_or_space t = t →
  let r := if PyStr.endswith ".svg" (PyStr.lower t) then t else t +:+ ".svg" in
  safe_filename r = r.
Proof.
  intros Hne Hmap Hstrip. simpl.
  destruct (PyStr.endswith ".svg" (PyStr.lower t)) eqn:E.
  - rewrite safe_filename_unfold. simpl. by rewrite Hmap, Hstrip, E.
  - rewrite safe_filename_unfold. simpl.
    rewrite map_app, Hmap.
    change (PyStr.map replace_illegal ".svg") with ".svg".
    assert (Hs : PyStr.strip dot_or_space (t +:+ ".svg") = t +:+ ".svg").
    { unfold PyStr.strip. rewrite lstrip_fixed.
      - by rewrite rstrip_app.
      - apply front_ok_app; [done|]. rewrite <- Hstrip. apply strip_front_ok. }
    rewrite Hs. unfold PyStr.lower. rewrite map_app.
    change (PyStr.map PyStr.lower_char ".svg") with ".svg".
    by rewrite endswith_app.
Qed.

(** ** Classifying a probed response *)

Lemma is_svg_content_lstrip ct body :
  is_svg_content ct body =
  PyStr.contains "svg" ct
  || (PyStr.startswith "<?xml" (PyStr.lstrip PyStr.isspace body)
      && PyStr.contains "svg" (PyStr.take 200 body))
  || PyStr.startswith "<svg" (PyStr.lstrip PyStr.isspace body)
  || PyStr.contains "image/svg" ct.
Proof.
  unfold is_svg_content.
  by rewrite !startswith_strip.
Qed.

(** C4.  A probed response ends the probing exactly when its status is 200
    and one of the four conditions of the classification rule holds, where
    the content type is the lower-cased header value and the 200 characters
    are those of the body as received.  In particular, with status 200, a
    body that starts with an opening SVG tag after leading whitespace
    matches whatever the headers are, and a content type containing svg
    matches whatever the body is. *)
Theorem probe_matched_iff_classified (r : response) :
  (probe_matched r = true ↔ classified_as_matched r)
  ∧ (∀ hs body c j,
       PyStr.startswith "<svg" (PyStr.lstrip PyStr.isspace body) = true →
       probe_matched (Response 200 hs body c j) = true)
  ∧ (∀ hs body c j,
       PyStr.contains "svg" (PyStr.lower (headers_get "content-type" hs)) = true →
       probe_matched (Response 200 hs body c j) = true).
Proof.
  split; [|split].
  - unfold probe_matched, classified_as_matched.
    rewrite is_svg_content_lstrip.
    rewrite andb_true_iff, !orb_true_iff, andb_true_iff, Z.eqb_eq.
    tauto.
  - intros hs body c j H. unfold probe_matched.
    rewrite is_svg_content_lstrip. cbn [text status_code].
    by rewrite H, Z.eqb_refl, !orb_true_r.
  - intros hs body c j H. unfold probe_matched, content_type.
    rewrite is_svg_content_lstrip. cbn [headers status_code].
    by rewrite H, Z.eqb_refl.
Qed.

(** Two responses: an SVG body served as plain text after two blanks, and
    an upper-case SVG content type in front of another body. *)
Lemma probe_matched_witness :
  probe_matched
    (Response 200 [("Content-Type", "text/plain")] "  <svg width='1'/>"
       "  <svg width='1'/>" None) = true
  ∧ probe_matched
      (Response 200 [("Content-Type", "IMAGE/SVG+XML")] "PNG" "PNG" None) = true.
Proof.
  split.
  - apply (proj1 (proj2 (probe_matched_iff_classified
             (Response 200 [] EmptyString EmptyString None)))).
    reflexivity.
  - apply (proj2 (proj2 (probe_matched_iff_classified
             (Response 200 [] EmptyString EmptyString None)))).
    reflexivity.
Defined.

(** A name made of dots and spaces only is sanitised to a bare extension,
    which is not a fixed point: its leading dot is stripped the next time. *)
Lemma safe_filename_blank s :
  all_chars dot_or_space s = true →
  safe_filename s = ".svg" ∧ safe_filename (safe_filename s) = "svg.svg".
Proof.
  intros H. rewrite safe_filename_unfold.
  assert (E : PyStr.strip dot_or_space (PyStr.map replace_illegal s) = EmptyString).
  { apply strip_empty_iff. by rewrite all_chars_map_replace. }
  rewrite E. by split.
Qed.

(** C7, as stated, fails: a recovered name consisting of a single dot is
    sanitised to the bare extension, and sanitising that again gives a
    different name. *)
Lemma safe_filename_not_idempotent :
  safe_filename "." = ".svg"
  ∧ safe_filename (safe_filename ".") = "svg.svg".
Proof. by split. Qed.

(** C7, amended.  Sanitising is idempotent on every name that has at least
    one character other than a dot or a space. *)
Theorem safe_filename_idempotent (s : string) :
  all_chars dot_or_space s = false →
  safe_filename (safe_filename s) = safe_filename s.
Proof.
  intros H. rewrite (safe_filename_unfold s).
  apply safe_filename_stable.
  - intros E. apply strip_empty_iff in E.
    rewrite all_chars_map_replace in E. congruence.
  - apply map_fixed_strip, map_replace_idem.
  - apply strip_idem.
Qed.

(** A name with illegal characters, padding and an upper-case extension. *)
Lemma safe_filename_idempotent_witness :
  safe_filename (safe_filename " my:plan?.SVG ") = safe_filename " my:plan?.SVG ".
Proof. apply (safe_filename_idempotent " my:plan?.SVG "). reflexivity. Defined.

(** ** Resolving a name conflict *)

Lemma path_join_inj out_dir a b :
  path_join out_dir a = path_join out_dir b → a = b.
Proof.
  unfold path_join. intros H.
  by apply (String.app_inj "/"), (String.app_inj out_dir).
Qed.

Lemma numbered_inj stem a b : numbered stem a = numbered stem b → a = b.
Proof.
  unfold numbered. intros H.
  apply (String.app_inj stem), (String.app_inj "_") in H.
  apply app_inv_tail_str in H. by apply (inj pretty).
Qed.

Lemma resolve_conflict_unchanged fuel (fs : gmap string string) out_dir stem
    filename c :
  fs !! path_join out_dir filename = None →
  resolve_conflict fuel fs out_dir stem filename c = Some filename.
Proof. intros H. destruct fuel; simpl; by rewrite H. Qed.

(** The name the loop ends with is free. *)
Lemma resolve_conflict_free fuel (fs : gmap string string) out_dir stem
    filename c name :
  resolve_conflict fuel fs out_dir stem filename c = Some name →
  fs !! path_join out_dir name = None.
Proof.
  revert filename c. induction fuel as [|fuel IH]; intros filename c; simpl.
  - destruct (fs !! path_join out_dir filename) eqn:E; [done|].
    by intros [= <-].
  - destruct (fs !! path_join out_dir filename) eqn:E; [apply IH|].
    by intros [= <-].
Qed.

(** The loop only looks at the numbered names from its counter on. *)
Lemma resolve_conflict_agree fuel (fs1 fs2 : gmap string string) out_dir stem c :
  (∀ k, (c ≤ k)%nat →
        fs1 !! path_join out_dir (numbered stem k) = None
        ↔ fs2 !! path_join out_dir (numbered stem k) = None) →
  resolve_conflict fuel fs1 out_dir stem (numbered stem c) (S c)
  = resolve_conflict fuel fs2 out_dir stem (numbered stem c) (S c).
Proof.
  revert c. induction fuel as [|fuel IH]; intros c H; simpl.
  - destruct (H c ltac:(lia)) as [H12 H21].
    destruct (fs1 !! _), (fs2 !! _); try done.
    + by specialize (H21 eq_refl).
    + by specialize (H12 eq_refl).
  - destruct (H c ltac:(lia)) as [H12 H21].
    destruct (fs1 !! _), (fs2 !! _); try done.
    + apply IH. intros k Hk. apply H. lia.
    + by specialize (H21 eq_refl).
    + by specialize (H12 eq_refl).
Qed.

(** Each numbered name that is taken is a different file, so the loop ends
    within as many iterations as there are files. *)
Lemma resolve_conflict_numbered_total fuel (fs : gmap string string) out_dir
    stem c :
  (size fs ≤ fuel)%nat →
  is_Some (resolve_conflict fuel fs out_dir stem (numbered stem c) (S c)).
Proof.
  revert fs c. induction fuel as [|fuel IH]; intros fs c Hsize.
  - assert (fs = ∅) as -> by (apply map_size_empty_iff; lia).
    simpl. rewrite lookup_empty. by eexists.
  - simpl. destruct (fs !! path_join out_dir (numbered stem c)) as [v|] eqn:E;
      [|by eexists].
    rewrite (resolve_conflict_agree fuel fs
               (delete (path_join out_dir (numbered stem c)) fs)).
    + apply IH.
      rewrite map_size_delete, E.
      assert (size fs ≠ 0)%nat.
      { intros H0. apply map_size_empty_iff in H0. subst fs.
        by rewrite lookup_empty in E. }
      lia.
    + intros k Hk. rewrite lookup_delete_ne; [done|].
      intros Heq. apply path_join_inj, numbered_inj in Heq. lia.
Qed.

(** With one more iteration than there are files the loop finds a name. *)
Lemma resolve_conflict_total (fs : gmap string string) out_dir stem filename :
  is_Some (resolve_conflict (S (size fs)) fs out_dir stem filename 1).
Proof.
  simpl. destruct (fs !! path_join out_dir filename); [|by eexists].
  by apply resolve_conflict_numbered_total.
Qed.

(** The numbered name found is the one with the least free counter. *)
Lemma resolve_conflict_least fuel (fs : gmap string string) out_dir stem c name :
  resolve_conflict fuel fs out_dir stem (numbered stem c) (S c) = Some name →
  ∃ k, (c ≤ k)%nat ∧ name = numbered stem k
       ∧ ∀ j, (c ≤ j < k)%nat →
              is_Some (fs !! path_join out_dir (numbered stem j)).
Proof.
  revert c. induction fuel as [|fuel IH]; intros c; simpl.
  - destruct (fs !! _) eqn:E; [done|]. intros [= <-].
    exists c. split; [lia|]. split; [done|]. intros j Hj. lia.
  - destruct (fs !! _) eqn:E.
    + intros H. apply IH in H as (k & Hk & -> & Hl).
      exists k. split; [lia|]. split; [done|].
      intros j Hj. destruct (decide (j = c)) as [->|]; [by eexists|].
      apply Hl. lia.
    + intros [= <-]. exists c. split; [lia|]. split; [done|].
      intros j Hj. lia.
Qed.



(** [rsplit] takes the extension off a name that ends in it. *)
Lemma rsplit1_head_svg x : PyStr.rsplit1_head ".svg" (x +:+ ".svg") = x.
Proof.
  unfold PyStr.rsplit1_head.
  assert (H : PyStr.rfind_head ".svg" (x +:+ ".svg") = Some x).
  { induction x as [|c x IH]; [reflexivity|].
    rewrite app_cons.
    change (PyStr.rfind_head ".svg" (String c (x +:+ ".svg")))
      with (match PyStr.rfind_head ".svg" (x +:+ ".svg") with
            | Some h => Some (String c h)
            | None => if PyStr.startswith ".svg" (String c (x +:+ ".svg"))
                      then Some EmptyString else None
            end).
    by rewrite IH. }
  by rewrite H.
Qed.

(** X11.  The destination of a file whose name ends in the lower-case
    extension, as every generated name and every name that had the
    extension added does: never an existing path; the name itself when that
    is free; otherwise the name with the least free counter put in front of
    the extension. *)
Lemma resolve_conflict_lowercase (fs : gmap string string) out_dir x :
  ∃ name,
    resolve_conflict (S (size fs)) fs out_dir
      (PyStr.rsplit1_head ".svg" (x +:+ ".svg")) (x +:+ ".svg") 1 = Some name
    ∧ fs !! path_join out_dir name = None
    ∧ (fs !! path_join out_dir (x +:+ ".svg") = None → name = x +:+ ".svg")
    ∧ (is_Some (fs !! path_join out_dir (x +:+ ".svg")) →
       ∃ k, (1 ≤ k)%nat ∧ name = x +:+ "_" +:+ pretty k +:+ ".svg"
            ∧ ∀ j, (1 ≤ j < k)%nat →
                   is_Some (fs !! path_join out_dir
                                    (x +:+ "_" +:+ pretty j +:+ ".svg"))).
Proof.
  rewrite rsplit1_head_svg.
  destruct (resolve_conflict_total fs out_dir x (x +:+ ".svg")) as [name H].
  exists name. split; [done|].
  split; [by eapply resolve_conflict_free|].
  split.
  - intros Hfree.
    rewrite (resolve_conflict_unchanged _ _ _ _ _ _ Hfree) in H. congruence.
  - intros [v Hv]. simpl in H. rewrite Hv in H.
    by apply resolve_conflict_least in H.
Qed.

(** ** Fuel *)

Lemma extends_refl {A} (m : M A) : extends m m.
Proof. by intros st. Qed.

Lemma extends_bind {A B} (m m' : M A) (k k' : A → M B) :
  extends m m' → (∀ a, extends (k a) (k' a)) →
  extends (bind m k) (bind m' k').
Proof.
  intros Hm Hk st. unfold bind, outcome. intros Hout.
  rewrite Hm.
  - destruct (m st) as [[[a|e|] st1] o1]; try done.
    rewrite Hk; [done|].
    unfold outcome. by destruct (k a st1) as [[r st2] o2].
  - unfold outcome. by destruct (m st) as [[[a|e|] st1] o1].
Qed.

Lemma extends_for_each {A} (l : list A) (b b' : A → M unit) :
  (∀ x, extends (b x) (b' x)) → extends (for_each l b) (for_each l b').
Proof.
  intros Hb. induction l as [|x l IH]; simpl.
  - apply extends_refl.
  - apply extends_bind; [apply Hb | by intros _].
Qed.

Lemma extends_get_items_from {S} server fuel fuel' board_id token url
    (body : item → S → M S) acc :
  (fuel ≤ fuel')%nat →
  extends (get_items_from server fuel board_id token url body acc)
          (get_items_from server fuel' board_id token url body acc).
Proof.
  revert fuel' url acc. induction fuel as [|fuel IH]; intros fuel' url acc Hle.
  - by intros st.
  - destruct fuel' as [|fuel']; [lia|]. simpl.
    apply extends_bind; [apply extends_refl|].
    intros [resp|]; [|apply extends_refl].
    destruct (negb _); [apply extends_refl|].
    destruct (json resp) as [data|]; [|apply extends_refl].
    apply extends_bind; [apply extends_refl|].
    intros acc'. destruct (page_cursor data) as [cursor|];
      [|apply extends_refl].
    destruct (PyStr.nonempty cursor); [|apply extends_refl].
    apply IH. lia.
Qed.

(** A run that ends without running out of fuel is the run for every
    larger amount of fuel: fuel only bounds the pages of a listing. *)
Lemma run_fuel_independent server fuel fuel' args fs :
  (fuel ≤ fuel')%nat →
  outcome (run server fuel args fs) ≠ OutOfFuel →
  run server fuel' args fs = run server fuel args fs.
Proof.
  intros Hle. unfold run. apply extends_bind; [|intros _; apply extends_refl].
  apply extends_for_each. intros t. unfold scan_type, get_items.
  apply extends_bind; [apply extends_refl|]. intros _.
  apply extends_bind; [|intros n; apply extends_refl].
  by apply extends_get_items_from.
Qed.

(** ** Invariants of the state *)

Section Preserves.

Context (I : state → Prop).

Lemma preserves_ret {A} (a : A) : preserves I (ret a).
Proof. by intros st. Qed.

Lemma preserves_raise {A} (e : exn) : preserves I (@raise A e).
Proof. by intros st. Qed.

Lemma preserves_out_of_fuel {A} : preserves I (@out_of_fuel A).
Proof. by intros st. Qed.

Lemma preserves_print l : preserves I (print l).
Proof. by intros st. Qed.

Lemma preserves_get_state : preserves I get_state.
Proof. by intros st. Qed.

(** What follows [get_state] may rely on the invariant of the state read. *)
Lemma preserves_bind_get_state {B} (k : state → M B) :
  (∀ st0, I st0 → preserves I (k st0)) → preserves I (bind get_state k).
Proof.
  intros Hk st Hst. specialize (Hk st Hst st Hst).
  unfold bind, get_state, final in *. simpl.
  by destruct (k st st) as [[r st2] o2].
Qed.

Lemma preserves_bind {A B} (m : M A) (k : A → M B) :
  preserves I m → (∀ a, preserves I (k a)) → preserves I (bind m k).
Proof.
  intros Hm Hk st Hst. specialize (Hm st Hst).
  unfold bind, final in *. destruct (m st) as [[[a|e|] st1] o1]; simpl in *.
  - specialize (Hk a st1 Hm). unfold final in Hk.
    by destruct (k a st1) as [[r st2] o2].
  - done.
  - done.
Qed.

Lemma preserves_try_except {A} (m : M A) (h : exn → M A) :
  preserves I m → (∀ e, preserves I (h e)) → preserves I (try_except m h).
Proof.
  intros Hm Hh st Hst. specialize (Hm st Hst).
  unfold try_except, final in *. destruct (m st) as [[[a|e|] st1] o1]; simpl in *.
  - done.
  - specialize (Hh e st1 Hm). unfold final in Hh.
    by destruct (h e st1) as [[r st2] o2].
  - done.
Qed.

Lemma preserves_for_each {A} (l : list A) (body : A → M unit) :
  (∀ x, preserves I (body x)) → preserves I (for_each l body).
Proof.
  intros Hb. induction l as [|x l IH]; simpl.
  - apply preserves_ret.
  - apply preserves_bind; [apply Hb|]. by intros _.
Qed.

Lemma preserves_for_fold {A S} (l : list A) (body : A → S → M S) acc :
  (∀ x a, preserves I (body x a)) → preserves I (for_fold l body acc).
Proof.
  intros Hb. revert acc. induction l as [|x l IH]; intros acc; simpl.
  - apply preserves_ret.
  - apply preserves_bind; [apply Hb|]. intros a. apply IH.
Qed.

Lemma preserves_unless_quiet args l : preserves I (unless_quiet args l).
Proof.
  unfold unless_quiet. destruct (quiet args);
    [apply preserves_ret | apply preserves_print].
Qed.

End Preserves.

Section PreservesRun.

Context (server : remote) (I : state → Prop) (HI : frame_invariant I).

Lemma preserves_send rq : preserves I (send server rq).
Proof. intros st Hst. by apply (frame_requests I HI st [rq]). Qed.

Lemma preserves_print_stderr l : preserves I (print_stderr l).
Proof. intros st Hst. by apply (frame_stderr I HI st [l]). Qed.

Lemma preserves_write_bytes st0 dest data :
  I st0 → files st0 !! dest = None → preserves I (write_bytes dest data).
Proof. intros H0 Hfree st Hst. by apply (frame_write I HI st0). Qed.

Lemma preserves_count_saved original : preserves I (count_saved original).
Proof. intros st Hst. by apply (frame_count I HI). Qed.

Lemma preserves_get_items_from {S} fuel board_id token url
    (body : item → S → M S) acc :
  (∀ x a, preserves I (body x a)) →
  preserves I (get_items_from server fuel board_id token url body acc).
Proof.
  intros Hb. revert url acc.
  induction fuel as [|fuel IH]; intros url acc; simpl.
  - apply preserves_out_of_fuel.
  - apply preserves_bind; [apply preserves_send|].
    intros [resp|]; [|apply preserves_raise].
    destruct (negb _); [apply preserves_raise|].
    destruct (json resp) as [data|]; [|apply preserves_raise].
    apply preserves_bind; [by apply preserves_for_fold|].
    intros acc'. destruct (page_cursor data) as [cursor|];
      [|apply preserves_ret].
    destruct (PyStr.nonempty cursor); [apply IH | apply preserves_ret].
Qed.

Lemma preserves_probe args urls : preserves I (probe server args urls).
Proof.
  induction urls as [|u urls IH]; simpl.
  - apply preserves_ret.
  - apply preserves_bind; [apply preserves_unless_quiet|]. intros _.
    apply preserves_bind; [apply preserves_send|].
    intros [resp|].
    + apply preserves_bind; [apply preserves_unless_quiet|]. intros _.
      destruct (probe_matched resp).
      * apply preserves_bind; [apply preserves_unless_quiet|]. intros _.
        apply preserves_ret.
      * apply preserves_bind; [|by intros _].
        destruct (_ =? _); [apply preserves_unless_quiet | apply preserves_ret].
    + apply preserves_bind; [apply preserves_unless_quiet|]. by intros _.
Qed.

Lemma preserves_download st0 token url dest :
  I st0 → files st0 !! dest = None →
  preserves I (download server token url dest).
Proof.
  intros H0 Hfree.
  unfold download. apply preserves_bind; [apply preserves_send|].
  intros [r|]; [|apply preserves_raise].
  apply preserves_bind.
  - unfold raise_for_status.
    destruct (_ && _); [apply preserves_raise | apply preserves_ret].
  - intros _. by apply (preserves_write_bytes st0).
Qed.

Lemma preserves_get_filename_from_headers token url :
  preserves I (get_filename_from_headers server token url).
Proof.
  unfold get_filename_from_headers.
  apply preserves_bind; [apply preserves_send|].
  intros [r|]; [|apply preserves_ret].
  destruct (_ =? _); apply preserves_ret.
Qed.

Lemma preserves_save st0 args src dest original :
  I st0 → files st0 !! dest = None →
  preserves I (save server args src dest original).
Proof.
  intros H0 Hfree.
  unfold save. apply preserves_try_except.
  - apply preserves_bind; [by apply (preserves_download st0)|]. intros _.
    apply preserves_bind; [apply preserves_count_saved|]. intros _.
    apply preserves_unless_quiet.
  - intros e. apply preserves_print_stderr.
Qed.

Lemma preserves_choose_filename args it o :
  preserves I (choose_filename args it o).
Proof.
  unfold choose_filename. destruct o; [apply preserves_ret|].
  destruct (item_id it); [|apply preserves_raise].
  apply preserves_bind; [apply preserves_unless_quiet|]. intros _.
  apply preserves_ret.
Qed.

Lemma preserves_save_matched_item args it src :
  preserves I (save_matched_item server args it src).
Proof.
  unfold save_matched_item.
  apply preserves_bind; [apply preserves_get_filename_from_headers|].
  intros o. apply preserves_bind.
  { destruct (truthy o); [apply preserves_unless_quiet | apply preserves_ret]. }
  intros _. apply preserves_bind; [apply preserves_choose_filename|].
  intros names. apply preserves_bind_get_state.
  intros st0 H0.
  destruct (resolve_conflict _ _ _ _ _ _) as [filename|] eqn:Hres;
    [|apply preserves_out_of_fuel].
  apply resolve_conflict_free in Hres.
  apply preserves_bind; [|intros _; by apply (preserves_save st0)].
  destruct (String.eqb _ _); [apply preserves_ret | apply preserves_unless_quiet].
Qed.

Lemma preserves_process_item args item_type it :
  preserves I (process_item server args item_type it).
Proof.
  unfold process_item.
  apply preserves_bind; [apply preserves_unless_quiet|]. intros _.
  apply preserves_bind; [apply preserves_probe|]. intros o.
  destruct (truthy o);
    [apply preserves_save_matched_item | apply preserves_unless_quiet].
Qed.

Lemma preserves_scan_type fuel args item_type :
  preserves I (scan_type server fuel args item_type).
Proof.
  unfold scan_type, get_items.
  apply preserves_bind; [apply preserves_print|]. intros _.
  apply preserves_bind; [|intros n; apply preserves_print].
  apply preserves_get_items_from. intros x a.
  apply preserves_bind; [apply preserves_process_item|].
  intros _. apply preserves_ret.
Qed.

Lemma preserves_summary args : preserves I (summary args).
Proof.
  unfold summary. apply preserves_bind; [apply preserves_get_state|].
  intros st. apply preserves_bind; [apply preserves_print|]. intros _.
  destruct (_ <? _)%nat; [|apply preserves_ret].
  apply preserves_bind; [apply preserves_print|]. intros _.
  apply preserves_print.
Qed.

Lemma preserves_main fuel args : preserves I (main server fuel args).
Proof.
  unfold main. apply preserves_bind; [|intros _; apply preserves_summary].
  apply preserves_for_each. intros t. apply preserves_scan_type.
Qed.

End PreservesRun.

Lemma counters_ok_frame : frame_invariant counters_ok.
Proof.
  split; unfold counters_ok; simpl; try done.
  intros st [] H; simpl; lia.
Qed.

(** The invariant that a given file is there with a given content. *)
Lemma file_kept_frame p v : frame_invariant (λ st, files st !! p = Some v).
Proof.
  split; simpl; try done.
  intros st0 st dest data H0 Hfree Hst.
  rewrite lookup_insert_ne; [done|]. congruence.
Qed.

(** X12.  A run never overwrites: whatever the output directory held at
    the start is still there, unchanged, however the run ends. *)
Lemma existing_files_kept (server : remote) (fuel : nat) (args : Args)
    (fs : gmap string string) (p v : string) :
  fs !! p = Some v →
  files (final (run server fuel args fs)) !! p = Some v.
Proof.
  intros H.
  by apply (preserves_main server _ (file_kept_frame p v) fuel args).
Qed.

(** More generally every single item leaves the files that exist alone. *)
Lemma process_item_keeps_files (server : remote) (args : Args)
    (item_type : string) (it : item) (st : state) (p v : string) :
  files st !! p = Some v →
  files (final (process_item server args item_type it st)) !! p = Some v.
Proof.
  intros H.
  by apply (preserves_process_item server _ (file_kept_frame p v)).
Qed.

(** ** Independence of the quiet flag *)

Section Related.

Context (R : list log_line → list log_line → Prop) (HR : log_relation R).

Lemma related_refl {A} (m : M A) : related R m m.
Proof. intros st. split; [done|]. apply (log_refl R HR). Qed.

Lemma related_bind {A B} (m1 m2 : M A) (k1 k2 : A → M B) :
  related R m1 m2 → (∀ a, related R (k1 a) (k2 a)) →
  related R (bind m1 k1) (bind m2 k2).
Proof.
  intros Hm Hk st. destruct (Hm st) as [E1 E2]. unfold bind.
  destruct (m1 st) as [[r1 s1] o1], (m2 st) as [[r2 s2] o2].
  simpl in E1, E2. injection E1 as -> ->.
  destruct r2 as [a|e|]; [|by split..].
  destruct (Hk a s2) as [F1 F2].
  destruct (k1 a s2) as [[r1' s1'] o1'], (k2 a s2) as [[r2' s2'] o2'].
  simpl in *. split; [congruence|]. by apply (log_app R HR).
Qed.

Lemma related_try_except {A} (m1 m2 : M A) (h1 h2 : exn → M A) :
  related R m1 m2 → (∀ e, related R (h1 e) (h2 e)) →
  related R (try_except m1 h1) (try_except m2 h2).
Proof.
  intros Hm Hh st. destruct (Hm st) as [E1 E2]. unfold try_except.
  destruct (m1 st) as [[r1 s1] o1], (m2 st) as [[r2 s2] o2].
  simpl in E1, E2. injection E1 as -> ->.
  destruct r2 as [a|e|]; [by split| |by split].
  destruct (Hh e s2) as [F1 F2].
  destruct (h1 e s2) as [[r1' s1'] o1'], (h2 e s2) as [[r2' s2'] o2'].
  simpl in *. split; [congruence|]. by apply (log_app R HR).
Qed.

Lemma related_for_each {A} (l : list A) (b1 b2 : A → M unit) :
  (∀ x, related R (b1 x) (b2 x)) →
  related R (for_each l b1) (for_each l b2).
Proof.
  intros Hb. induction l as [|x l IH]; simpl.
  - apply related_refl.
  - apply related_bind; [apply Hb | by intros _].
Qed.

Lemma related_for_fold {A S} (l : list A) (b1 b2 : A → S → M S) acc :
  (∀ x a, related R (b1 x a) (b2 x a)) →
  related R (for_fold l b1 acc) (for_fold l b2 acc).
Proof.
  intros Hb. revert acc. induction l as [|x l IH]; intros acc; simpl.
  - apply related_refl.
  - apply related_bind; [apply Hb | intros a; apply IH].
Qed.

End Related.

Section QuietRun.

Context (R : list log_line → list log_line → Prop) (HR : log_relation R).
Context (server : remote) (a1 a2 : Args) (Ha : same_target a1 a2).
Context (Hq : ∀ l, R (if quiet a1 then [] else [l])
                     (if quiet a2 then [] else [l])).

Lemma related_unless_quiet l :
  related R (unless_quiet a1 l) (unless_quiet a2 l).
Proof.
  intros st. split.
  - unfold unless_quiet. by destruct (quiet a1), (quiet a2).
  - specialize (Hq l). unfold unless_quiet.
    by destruct (quiet a1), (quiet a2).
Qed.

Lemma related_get_items_from {S} fuel board_id token url
    (b1 b2 : item → S → M S) acc :
  (∀ x a, related R (b1 x a) (b2 x a)) →
  related R (get_items_from server fuel board_id token url b1 acc)
               (get_items_from server fuel board_id token url b2 acc).
Proof.
  intros Hb. revert url acc.
  induction fuel as [|fuel IH]; intros url acc; simpl.
  - apply (related_refl R HR).
  - apply (related_bind R HR); [apply (related_refl R HR)|].
    intros [resp|]; [|apply (related_refl R HR)].
    destruct (negb _); [apply (related_refl R HR)|].
    destruct (json resp) as [data|]; [|apply (related_refl R HR)].
    apply (related_bind R HR); [by apply (related_for_fold R HR)|].
    intros acc'. destruct (page_cursor data) as [cursor|];
      [|apply (related_refl R HR)].
    destruct (PyStr.nonempty cursor); [apply IH | apply (related_refl R HR)].
Qed.

Lemma related_probe urls :
  related R (probe server a1 urls) (probe server a2 urls).
Proof.
  destruct Ha as (_ & Htok & _).
  induction urls as [|u urls IH]; simpl.
  - apply (related_refl R HR).
  - apply (related_bind R HR); [apply related_unless_quiet|]. intros _.
    rewrite Htok.
    apply (related_bind R HR); [apply (related_refl R HR)|].
    intros [resp|].
    + apply (related_bind R HR); [apply related_unless_quiet|]. intros _.
      destruct (probe_matched resp).
      * apply (related_bind R HR); [apply related_unless_quiet|].
        intros _. apply (related_refl R HR).
      * apply (related_bind R HR); [|by intros _].
        destruct (_ =? _);
          [apply related_unless_quiet | apply (related_refl R HR)].
    + apply (related_bind R HR); [apply related_unless_quiet|].
      by intros _.
Qed.

Lemma related_save src dest original :
  related R (save server a1 src dest original)
               (save server a2 src dest original).
Proof.
  destruct Ha as (_ & Htok & _).
  unfold save. rewrite Htok. apply (related_try_except R HR).
  - apply (related_bind R HR); [apply (related_refl R HR)|]. intros _.
    apply (related_bind R HR); [apply (related_refl R HR)|]. intros _.
    apply related_unless_quiet.
  - intros e. apply (related_refl R HR).
Qed.

Lemma related_choose_filename it o :
  related R (choose_filename a1 it o) (choose_filename a2 it o).
Proof.
  unfold choose_filename. destruct o; [apply (related_refl R HR)|].
  destruct (item_id it); [|apply (related_refl R HR)].
  apply (related_bind R HR); [apply related_unless_quiet|].
  intros _. apply (related_refl R HR).
Qed.

Lemma related_save_matched_item it src :
  related R (save_matched_item server a1 it src)
               (save_matched_item server a2 it src).
Proof.
  pose proof Ha as (_ & Htok & Hout).
  unfold save_matched_item. rewrite Htok, Hout.
  apply (related_bind R HR); [apply (related_refl R HR)|].
  intros o. apply (related_bind R HR).
  { destruct (truthy o);
      [apply related_unless_quiet | apply (related_refl R HR)]. }
  intros _. apply (related_bind R HR); [apply related_choose_filename|].
  intros names. apply (related_bind R HR); [apply (related_refl R HR)|].
  intros st. destruct (resolve_conflict _ _ _ _ _ _);
    [|apply (related_refl R HR)].
  apply (related_bind R HR); [|intros _; apply related_save].
  destruct (String.eqb _ _);
    [apply (related_refl R HR) | apply related_unless_quiet].
Qed.

Lemma related_process_item item_type it :
  related R (process_item server a1 item_type it)
               (process_item server a2 item_type it).
Proof.
  unfold process_item.
  apply (related_bind R HR); [apply related_unless_quiet|]. intros _.
  apply (related_bind R HR); [apply related_probe|]. intros o.
  destruct (truthy o);
    [apply related_save_matched_item | apply related_unless_quiet].
Qed.

Lemma related_scan_type fuel item_type :
  related R (scan_type server fuel a1 item_type)
               (scan_type server fuel a2 item_type).
Proof.
  pose proof Ha as (Hb & Htok & _).
  unfold scan_type, get_items. rewrite Hb, Htok.
  apply (related_bind R HR); [apply (related_refl R HR)|]. intros _.
  apply (related_bind R HR); [|intros n; apply (related_refl R HR)].
  apply related_get_items_from. intros x a.
  apply (related_bind R HR); [apply related_process_item|].
  intros _. apply (related_refl R HR).
Qed.

Lemma related_main fuel :
  related R (main server fuel a1) (main server fuel a2).
Proof.
  pose proof Ha as (_ & _ & Hout).
  unfold main. apply (related_bind R HR).
  - apply (related_for_each R HR). intros t. apply related_scan_type.
  - intros _. unfold summary. rewrite Hout. apply (related_refl R HR).
Qed.

End QuietRun.

(** Relations between printed lines. *)
Lemma any_log_relation : log_relation (λ _ _, True).
Proof. by split. Qed.

Lemma sublist_log_relation : log_relation (sublist (A:=log_line)).
Proof. split; [done|]. intros. by apply sublist_app. Qed.

Lemma same_effects_main server a1 a2 fuel :
  same_target a1 a2 → same_effects (main server fuel a1) (main server fuel a2).
Proof.
  intros Ha st.
  by apply (related_main _ any_log_relation server a1 a2 Ha).
Qed.

(** What the quiet run of the board with two images still prints. *)
Example quiet_stdout :
  stdout (run (two_images []) 3 (with_quiet true demo_args) ∅)
  = [ LScanning "image"; LTotalItems "image" 2;
      LScanning "document"; LTotalItems "document" 0;
      LScanning "shape"; LTotalItems "shape" 0;
      LScanning "sticky_note"; LTotalItems "sticky_note" 0;
      LScanning "text"; LTotalItems "text" 0;
      LScanning "frame"; LTotalItems "frame" 0;
      LScanning "app_card"; LTotalItems "app_card" 0;
      LDone 2 "/out"; LKeptOriginal 0; LUsedGenerated 2 ].
Proof. vm_compute. reflexivity. Qed.

(** ** The quiet flag on a console that can refuse a line *)

Section ConsoleQuiet.

Context (R : list log_line → list log_line → Prop) (HR : log_relation R).
Context (server : remote) (out_ok err_ok : log_line → bool).
Context (a1 a2 : Args) (Ha : same_target a1 a2).
Context (Hq : ∀ l, R (if quiet a1 then [] else [l])
                     (if quiet a2 then [] else [l])).
Context (Hok : ∀ l, per_item_line l = true → out_ok l = true).

Lemma related_console_unless_quiet l :
  per_item_line l = true →
  related R (Console.unless_quiet out_ok a1 l)
               (Console.unless_quiet out_ok a2 l).
Proof.
  intros Hl st. unfold Console.unless_quiet, Console.print.
  rewrite (Hok l Hl). specialize (Hq l).
  destruct (quiet a1), (quiet a2); (split; [reflexivity | exact Hq]).
Qed.

Lemma related_console_try_candidate u :
  related R (Console.try_candidate server out_ok a1 u)
               (Console.try_candidate server out_ok a2 u).
Proof.
  destruct Ha as (_ & Htok & _).
  unfold Console.try_candidate. rewrite Htok.
  apply (related_bind R HR); [by apply related_console_unless_quiet|].
  intros _. apply (related_bind R HR); [apply (related_refl R HR)|].
  intros [resp|]; [|apply (related_refl R HR)].
  apply (related_bind R HR); [by apply related_console_unless_quiet|].
  intros _. destruct (probe_matched resp); [apply (related_refl R HR)|].
  apply (related_bind R HR); [|intros _; apply (related_refl R HR)].
  destruct (_ =? _);
    [by apply related_console_unless_quiet | apply (related_refl R HR)].
Qed.

Lemma related_console_probe_handler e :
  related R (Console.probe_handler out_ok a1 e)
               (Console.probe_handler out_ok a2 e).
Proof.
  unfold Console.probe_handler.
  apply (related_bind R HR); [by apply related_console_unless_quiet|].
  intros _. apply (related_refl R HR).
Qed.

Lemma related_console_probe urls su :
  related R (Console.probe server out_ok a1 urls su)
               (Console.probe server out_ok a2 urls su).
Proof.
  revert su. induction urls as [|u urls IH]; intros su; simpl.
  - apply (related_refl R HR).
  - apply (related_bind R HR).
    { apply (related_try_except R HR);
        [apply related_console_try_candidate
        |apply related_console_probe_handler]. }
    intros [|]; [|apply IH].
    apply (related_bind R HR).
    { apply (related_try_except R HR);
        [|apply related_console_probe_handler].
      apply (related_bind R HR); [by apply related_console_unless_quiet|].
      intros _. apply (related_refl R HR). }
    intros [|]; [apply (related_refl R HR) | apply IH].
Qed.

Lemma related_console_save src dest original :
  related R (Console.save server out_ok err_ok a1 src dest original)
               (Console.save server out_ok err_ok a2 src dest original).
Proof.
  destruct Ha as (_ & Htok & _).
  unfold Console.save. rewrite Htok. apply (related_try_except R HR).
  - apply (related_bind R HR); [apply (related_refl R HR)|]. intros _.
    apply (related_bind R HR); [apply (related_refl R HR)|]. intros _.
    by apply related_console_unless_quiet.
  - intros e. apply (related_refl R HR).
Qed.

Lemma related_console_choose_filename it o :
  related R (Console.choose_filename out_ok a1 it o)
               (Console.choose_filename out_ok a2 it o).
Proof.
  unfold Console.choose_filename. destruct o; [apply (related_refl R HR)|].
  destruct (item_id it); [|apply (related_refl R HR)].
  apply (related_bind R HR); [by apply related_console_unless_quiet|].
  intros _. apply (related_refl R HR).
Qed.

Lemma related_console_save_matched_item it src :
  related R (Console.save_matched_item server out_ok err_ok a1 it src)
               (Console.save_matched_item server out_ok err_ok a2 it src).
Proof.
  pose proof Ha as (_ & Htok & Hout).
  unfold Console.save_matched_item. rewrite Htok, Hout.
  apply (related_bind R HR); [apply (related_refl R HR)|].
  intros o. apply (related_bind R HR).
  { destruct (truthy o);
      [by apply related_console_unless_quiet | apply (related_refl R HR)]. }
  intros _.
  apply (related_bind R HR); [apply related_console_choose_filename|].
  intros names. apply (related_bind R HR); [apply (related_refl R HR)|].
  intros st. destruct (resolve_conflict _ _ _ _ _ _);
    [|apply (related_refl R HR)].
  apply (related_bind R HR); [|intros _; apply related_console_save].
  destruct (String.eqb _ _);
    [apply (related_refl R HR) | by apply related_console_unless_quiet].
Qed.

Lemma related_console_process_item item_type it :
  related R (Console.process_item server out_ok err_ok a1 item_type it)
               (Console.process_item server out_ok err_ok a2 item_type it).
Proof.
  unfold Console.process_item.
  apply (related_bind R HR); [by apply related_console_unless_quiet|].
  intros _. apply (related_bind R HR); [apply related_console_probe|].
  intros o. destruct (truthy o);
    [apply related_console_save_matched_item
    |by apply related_console_unless_quiet].
Qed.

Lemma related_console_scan_type fuel item_type :
  related R (Console.scan_type server out_ok err_ok fuel a1 item_type)
               (Console.scan_type server out_ok err_ok fuel a2 item_type).
Proof.
  pose proof Ha as (Hb & Htok & _).
  unfold Console.scan_type, get_items. rewrite Hb, Htok.
  apply (related_bind R HR); [apply (related_refl R HR)|]. intros _.
  apply (related_bind R HR); [|intros n; apply (related_refl R HR)].
  apply (related_get_items_from R HR). intros x a.
  apply (related_bind R HR); [apply related_console_process_item|].
  intros _. apply (related_refl R HR).
Qed.

Lemma related_console_main fuel :
  related R (Console.main server out_ok err_ok fuel a1)
               (Console.main server out_ok err_ok fuel a2).
Proof.
  pose proof Ha as (_ & _ & Hout).
  unfold Console.main. apply (related_bind R HR).
  - apply (related_for_each R HR). intros t. apply related_console_scan_type.
  - intros _. unfold Console.summary. rewrite Hout. apply (related_refl R HR).
Qed.

End ConsoleQuiet.

(** *** The console that takes every line

    On such a console the run is the run of the first set of definitions,
    so what is proved of that one holds here whenever no [print] raises. *)

Lemma eq_log_relation : log_relation (@eq (list log_line)).
Proof. split; [done|]. by intros ???? -> ->. Qed.

Lemma console_probe_agrees server args urls st :
  Console.probe server accepts_all args urls None st
  = probe server args urls st.
Proof.
  revert st. induction urls as [|u urls IH]; intros st; [done|].
  simpl Console.probe. simpl probe.
  unfold bind at 1. unfold try_except at 1.
  unfold Console.try_candidate, Console.probe_handler.
  unfold bind, try_except, Console.unless_quiet, Console.print,
    unless_quiet, print, send, raise, ret.
  destruct (quiet args); cbn;
    (destruct (server _ _) as [r|]; cbn;
     [destruct (probe_matched r); cbn;
      [reflexivity|destruct (_ =? _); cbn]|]);
    rewrite IH; by destruct (probe _ _ _ _) as [[? ?] ?].
Qed.

Lemma console_process_item_agrees server args item_type it :
  related eq
    (Console.process_item server accepts_all accepts_all args item_type it)
    (process_item server args item_type it).
Proof.
  unfold Console.process_item, process_item.
  apply (related_bind _ eq_log_relation).
  { exact (related_refl _ eq_log_relation (unless_quiet args _)). }
  intros _. apply (related_bind _ eq_log_relation).
  { intros st. by rewrite console_probe_agrees. }
  intros o. destruct (truthy o) as [src|].
  - exact (related_refl _ eq_log_relation
             (save_matched_item server args it src)).
  - exact (related_refl _ eq_log_relation (unless_quiet args LNoSvg)).
Qed.

Lemma console_main_agrees server fuel args :
  related eq (Console.main server accepts_all accepts_all fuel args)
    (main server fuel args).
Proof.
  unfold Console.main, main. apply (related_bind _ eq_log_relation).
  - apply (related_for_each _ eq_log_relation). intros t.
    unfold Console.scan_type, scan_type, get_items.
    apply (related_bind _ eq_log_relation).
    { exact (related_refl _ eq_log_relation (print (LScanning t))). }
    intros _. apply (related_bind _ eq_log_relation).
    + apply (related_get_items_from _ eq_log_relation). intros x n.
      apply (related_bind _ eq_log_relation);
        [apply console_process_item_agrees|].
      intros _. apply (related_refl _ eq_log_relation).
    + intros n.
      exact (related_refl _ eq_log_relation (print (LTotalItems t n))).
  - intros _. exact (related_refl _ eq_log_relation (summary args)).
Qed.

Lemma console_run_agrees server fuel args fs :
  Console.run server accepts_all accepts_all fuel args fs
  = run server fuel args fs.
Proof.
  destruct (console_main_agrees server fuel args (initial_state fs))
    as [H1 H2].
  unfold Console.run, run.
  destruct (Console.main _ _ _ _ _ _) as [p1 o1], (main _ _ _ _) as [p2 o2].
  simpl in *. by subst.
Qed.

(** C10, as stated, fails.  On a stdout in Windows-1252 the run of the
    board with two images that is not quiet ends at the first match: the
    check mark of line 156 cannot be printed, the handler of line 163
    catches that, and the warning sign of line 165 cannot be printed either,
    which nothing catches.  It has issued four requests and written no
    file.  The quiet run of the same board on the same console ends
    normally after seventeen requests with two files saved. *)
Lemma quiet_flag_changes_the_run :
  outcome (Console.run (two_images []) cp1252_console accepts_all 3
             demo_args ∅)
  = Raise UnicodeEncodeError
  ∧ length (requests (final (Console.run (two_images []) cp1252_console
                               accepts_all 3 demo_args ∅))) = 4%nat
  ∧ size (files (final (Console.run (two_images []) cp1252_console
                          accepts_all 3 demo_args ∅))) = 0%nat
  ∧ total_saved (final (Console.run (two_images []) cp1252_console
                          accepts_all 3 demo_args ∅)) = 0%nat
  ∧ outcome (Console.run (two_images []) cp1252_console accepts_all 3
               (with_quiet true demo_args) ∅)
    = Ok tt
  ∧ length (requests (final (Console.run (two_images []) cp1252_console
                               accepts_all 3 (with_quiet true demo_args) ∅)))
    = 17%nat
  ∧ files (final (Console.run (two_images []) cp1252_console accepts_all 3
                    (with_quiet true demo_args) ∅)) !! "/out/42.svg"
    = Some svg_body
  ∧ files (final (Console.run (two_images []) cp1252_console accepts_all 3
                    (with_quiet true demo_args) ∅)) !! "/out/43.svg"
    = Some svg_body
  ∧ total_saved (final (Console.run (two_images []) cp1252_console
                          accepts_all 3 (with_quiet true demo_args) ∅))
    = 2%nat.
Proof. vm_compute. repeat split. Qed.

(** When only the check mark is refused, the match is remembered all the
    same: the handler prints, the two candidates left are probed as well,
    and the item is downloaded from the candidate that matched. *)
Example match_is_remembered :
  req_url
    <$> requests
          (final (Console.process_item (two_images []) no_check_mark
                    accepts_all demo_args "image"
                    (Item (Some "42") (Some "https://r.miro.com/x?a=1"))
                    (initial_state ∅)))
  = [ "https://r.miro.com/x?format=original&redirect=true";
      "https://r.miro.com/x?redirect=true";
      "https://r.miro.com/x?format=original";
      "https://r.miro.com/x";
      "https://r.miro.com/x?a=1";
      "https://r.miro.com/x?format=original";
      "https://r.miro.com/x?format=original" ]
  ∧ stdout (Console.process_item (two_images []) no_check_mark accepts_all
              demo_args "image"
              (Item (Some "42") (Some "https://r.miro.com/x?a=1"))
              (initial_state ∅)) !! 7%nat
    = Some LProbeError.
Proof. vm_compute. by split. Qed.

(** C10, amended.  Take two runs against the same remote side, on the same
    console and from the same output directory, whose arguments differ at
    most in the quiet flag, and let stdout take every line that is printed
    only when the flag is off.  Then the two runs end the same way and in
    the same state: the same requests in the same order, the same files
    with the same contents, the same lines on stderr and the same counters.
    Only the lines printed to stdout differ: what the quiet run prints is
    what the other run prints with lines left out.  The lines printed in
    either case may be refused: both runs then end there. *)
Theorem quiet_is_pure_when_prints_succeed (server : remote)
    (stdout_accepts stderr_accepts : log_line → bool) (fuel : nat)
    (a1 a2 : Args) (fs : gmap string string) :
  same_but_quiet a1 a2 →
  (∀ l, per_item_line l = true → stdout_accepts l = true) →
  outcome (Console.run server stdout_accepts stderr_accepts fuel a1 fs)
  = outcome (Console.run server stdout_accepts stderr_accepts fuel a2 fs)
  ∧ final (Console.run server stdout_accepts stderr_accepts fuel a1 fs)
    = final (Console.run server stdout_accepts stderr_accepts fuel a2 fs)
  ∧ (quiet a1 = true →
     stdout (Console.run server stdout_accepts stderr_accepts fuel a1 fs)
     `sublist_of`
     stdout (Console.run server stdout_accepts stderr_accepts fuel a2 fs)).
Proof.
  intros [Ha _] Hok.
  pose proof (related_console_main _ any_log_relation server stdout_accepts
                stderr_accepts a1 a2 Ha (λ _, I) Hok fuel (initial_state fs))
    as [H _].
  unfold outcome, final, Console.run. rewrite H. repeat split.
  intros Hquiet.
  apply (related_console_main _ sublist_log_relation server stdout_accepts
           stderr_accepts a1 a2 Ha); [|exact Hok].
  intros l. rewrite Hquiet. apply sublist_nil_l.
Qed.

(** The board with two images, scanned with and without the quiet flag on a
    console that takes the per-item lines and refuses the bullets of the
    summary: both runs save the two files and end at line 231. *)
Lemma quiet_is_pure_when_prints_succeed_witness :
  same_but_quiet (with_quiet true demo_args) demo_args
  ∧ (∀ l, per_item_line l = true → no_bullets l = true)
  ∧ outcome (Console.run (two_images []) no_bullets accepts_all 3
               (with_quiet true demo_args) ∅)
    = outcome (Console.run (two_images []) no_bullets accepts_all 3
                 demo_args ∅)
  ∧ final (Console.run (two_images []) no_bullets accepts_all 3
             (with_quiet true demo_args) ∅)
    = final (Console.run (two_images []) no_bullets accepts_all 3
               demo_args ∅)
  ∧ stdout (Console.run (two_images []) no_bullets accepts_all 3
              (with_quiet true demo_args) ∅)
    `sublist_of` stdout (Console.run (two_images []) no_bullets accepts_all 3
                           demo_args ∅).
Proof.
  assert (H : same_but_quiet (with_quiet true demo_args) demo_args)
    by (by repeat split).
  assert (Hok : ∀ l, per_item_line l = true → no_bullets l = true)
    by (by intros []).
  split; [exact H|]. split; [exact Hok|].
  destruct (quiet_is_pure_when_prints_succeed (two_images []) no_bullets
              accepts_all 3 (with_quiet true demo_args) demo_args ∅ H Hok)
    as (Ho & Hf & Hs).
  split; [exact Ho|]. split; [exact Hf | exact (Hs eq_refl)].
Defined.

(** On that console the quiet run ends at the first bullet, after the work
    is done. *)
Example no_bullets_run :
  outcome (Console.run (two_images []) no_bullets accepts_all 3
             (with_quiet true demo_args) ∅) = Raise UnicodeEncodeError
  ∧ counters (final (Console.run (two_images []) no_bullets accepts_all 3
                       (with_quiet true demo_args) ∅)) = (2, 0, 2)%nat.
Proof. vm_compute. by split. Qed.

(** ** Running the computations *)

Lemma exec_ret {A} (a : A) st : exec (ret a) st = (Ok a, st).
Proof. reflexivity. Qed.

Lemma exec_print l st : exec (print l) st = (Ok tt, st).
Proof. reflexivity. Qed.

Lemma exec_get_state st : exec get_state st = (Ok st, st).
Proof. reflexivity. Qed.

Lemma exec_unless_quiet args l st : exec (unless_quiet args l) st = (Ok tt, st).
Proof. unfold unless_quiet. by destruct (quiet args). Qed.

Lemma exec_send server rq st :
  exec (send server rq) st
  = (Ok (server (length (requests st)) rq), add_requests st [rq]).
Proof. reflexivity. Qed.

Lemma exec_bind {A B} (m : M A) (k : A → M B) st :
  exec (bind m k) st =
  match exec m st with
  | (Ok a, st1) => exec (k a) st1
  | (Raise e, st1) => (Raise e, st1)
  | (OutOfFuel, st1) => (OutOfFuel, st1)
  end.
Proof.
  unfold exec, bind. destruct (m st) as [[[a|e|] st1] o1]; simpl; try done.
  by destruct (k a st1) as [[r st2] o2].
Qed.

Lemma exec_try_except {A} (m : M A) (h : exn → M A) st :
  exec (try_except m h) st =
  match exec m st with
  | (Raise e, st1) => exec (h e) st1
  | other => other
  end.
Proof.
  unfold exec, try_except. destruct (m st) as [[[a|e|] st1] o1]; simpl; try done.
  by destruct (h e st1) as [[r st2] o2].
Qed.

Lemma exec_outcome_final {A} (m : M A) st :
  exec m st = (outcome (m st), final (m st)).
Proof. unfold exec, outcome, final. by destruct (m st) as [[r s] o]. Qed.


Lemma add_requests_app st l1 l2 :
  add_requests (add_requests st l1) l2 = add_requests st (l1 ++ l2).
Proof. unfold add_requests. simpl. by rewrite app_assoc. Qed.

Lemma requests_add_requests st l :
  requests (add_requests st l) = requests st ++ l.
Proof. reflexivity. Qed.

(** ** Probing the candidates *)








(** ** Enumerating the items *)

Lemma exec_for_fold_collect l acc st :
  exec (for_fold l collect acc) st = (Ok (acc ++ l), st).
Proof.
  revert acc. induction l as [|x l IH]; intros acc; simpl.
  - by rewrite exec_ret, app_nil_r.
  - rewrite exec_bind. unfold collect at 1. rewrite exec_ret, IH.
    by rewrite <- app_assoc.
Qed.

Lemma exec_get_items_from_step {S} server fuel board_id token url
    (body : item → S → M S) acc st resp data :
  server (length (requests st)) (Request GET url (bearer token)) = Some resp →
  status_code resp = 200 →
  json resp = Some data →
  exec (get_items_from server (Datatypes.S fuel) board_id token url body acc) st =
  match exec (for_fold (page_data data) body acc)
          (add_requests st [Request GET url (bearer token)]) with
  | (Ok acc', st1) =>
      match truthy (page_cursor data) with
      | Some cursor =>
          exec (get_items_from server fuel board_id token
                  (next_page_url board_id cursor) body acc') st1
      | None => (Ok acc', st1)
      end
  | (Raise e, st1) => (Raise e, st1)
  | (OutOfFuel, st1) => (OutOfFuel, st1)
  end.
Proof.
  intros Hsrv Hstatus Hjson. simpl get_items_from.
  rewrite exec_bind, exec_send, Hsrv, Hstatus. simpl negb. cbv iota.
  rewrite Hjson, exec_bind.
  destruct (exec (for_fold _ _ _) _) as [[acc'|e|] st1]; [|done..].
  unfold truthy. destruct (page_cursor data) as [c|]; [|done].
  by destruct (PyStr.nonempty c).
Qed.

(** A page answered with another status than 200 raises at once. *)
Lemma exec_get_items_from_refused {S} server fuel board_id token url
    (body : item → S → M S) acc st resp :
  server (length (requests st)) (Request GET url (bearer token)) = Some resp →
  status_code resp ≠ 200 →
  exec (get_items_from server (Datatypes.S fuel) board_id token url body acc) st
  = (Raise (RuntimeError (status_code resp) url (text resp)),
     add_requests st [Request GET url (bearer token)]).
Proof.
  intros Hsrv Hstatus. simpl get_items_from.
  rewrite exec_bind, exec_send, Hsrv.
  apply Z.eqb_neq in Hstatus. by rewrite Hstatus.
Qed.

Lemma exec_get_items_from_chain server board_id token n url pages :
  page_chain server board_id token n url pages →
  ∀ st fuel acc,
    n = length (requests st) → (length pages ≤ fuel)%nat →
    exec (get_items_from server fuel board_id token url collect acc) st
    = (Ok (acc ++ concat (page_data <$> pages)),
       add_requests st
         ((λ u, Request GET u (bearer token)) <$>
            url :: omap (λ p, next_page_url board_id <$> truthy (page_cursor p))
                     pages)).
Proof.
  induction 1 as [n url resp data Hsrv Hst Hjs Hcur
                 |n url resp data cursor rest Hsrv Hst Hjs Hcur Hrest IH];
    intros st fuel acc -> Hfuel.
  - destruct fuel as [|fuel]; [simpl in Hfuel; lia|].
    rewrite (exec_get_items_from_step _ _ _ _ _ _ _ _ resp data) by done.
    rewrite exec_for_fold_collect, Hcur. simpl. rewrite Hcur. simpl.
    by rewrite app_nil_r.
  - destruct fuel as [|fuel]; [simpl in Hfuel; lia|].
    rewrite (exec_get_items_from_step _ _ _ _ _ _ _ _ resp data) by done.
    rewrite exec_for_fold_collect, Hcur.
    rewrite IH.
    + rewrite add_requests_app. simpl. rewrite Hcur. simpl.
      by rewrite <- app_assoc.
    + rewrite requests_add_requests, length_app. simpl. lia.
    + simpl in Hfuel. lia.
Qed.

(** C3, as stated, fails: the request for the second page carries the
    cursor alone, neither the item-type filter nor the page size. *)
Lemma follow_up_request_drops_the_filter :
  exec (get_items two_pages 5 "b1" "tok" "image" collect []) (initial_state ∅)
  = (Ok [Item (Some "1") None; Item (Some "2") None],
     add_requests (initial_state ∅)
       [ Request GET "https://api.miro.com/v2/boards/b1/items?type=image&limit=50"
           "Bearer tok";
         Request GET "https://api.miro.com/v2/boards/b1/items?cursor=c2"
           "Bearer tok" ])
  ∧ PyStr.contains "type=image"
      "https://api.miro.com/v2/boards/b1/items?cursor=c2" = false.
Proof. by split. Qed.

(** C3, amended.  The first request carries the item-type filter and the
    page size 50; every follow-up request carries only the cursor of the
    page before it.  When the pages so reached all have status 200 and the
    chain ends at a page without a usable cursor, then, given fuel for that
    many pages, the enumeration ends normally, has requested exactly these
    URLs in order, and has yielded the items of all the pages in order. *)
Theorem get_items_follows_cursors (server : remote)
    (board_id token item_type : string) (pages : list page) (st : state)
    (fuel : nat) (acc : list item) :
  page_chain server board_id token (length (requests st))
    (first_page_url board_id item_type) pages →
  (length pages ≤ fuel)%nat →
  exec (get_items server fuel board_id token item_type collect acc) st
  = (Ok (acc ++ concat (page_data <$> pages)),
     add_requests st
       ((λ u, Request GET u (bearer token)) <$>
          listing_urls board_id item_type pages)).
Proof.
  intros Hchain Hfuel. unfold get_items, listing_urls.
  by eapply exec_get_items_from_chain.
Qed.

(** The listing over two pages, with fuel for exactly two. *)
Lemma get_items_follows_cursors_witness :
  exec (get_items two_pages 2 "b1" "tok" "image" collect []) (initial_state ∅)
  = (Ok [Item (Some "1") None; Item (Some "2") None],
     add_requests (initial_state ∅)
       [ Request GET (first_page_url "b1" "image") "Bearer tok";
         Request GET (next_page_url "b1" "c2") "Bearer tok" ]).
Proof.
  apply (get_items_follows_cursors two_pages "b1" "tok" "image"
           [Page [Item (Some "1") None] (Some "c2");
            Page [Item (Some "2") None] None]
           (initial_state ∅) 2 []).
  - eapply chain_more; [reflexivity..|].
    eapply chain_last; reflexivity.
  - simpl. lia.
Defined.

(** ** Errors of the listing *)

Lemma exec_for_each_raise {A} (f : A → M unit) pre t post st st1 e st2 :
  exec (for_each pre f) st = (Ok tt, st1) →
  exec (f t) st1 = (Raise e, st2) →
  exec (for_each (pre ++ t :: post) f) st = (Raise e, st2).
Proof.
  revert st. induction pre as [|x pre IH]; intros st Hpre Ht.
  - simpl in Hpre. rewrite exec_ret in Hpre. injection Hpre as ->.
    simpl. by rewrite exec_bind, Ht.
  - simpl in *. rewrite exec_bind in *.
    destruct (exec (f x) st) as [[[]|e'|] st']; [|done..].
    by apply IH.
Qed.

(** C1, as stated, fails: when the listing of image items is refused with
    status 403 the run ends with the error after that single request; no
    other item type is scanned, although each of their listings would have
    been answered, and no summary is printed. *)
Lemma refused_listing_ends_the_run :
  run forbidden_images 3 demo_args ∅
  = (Raise (RuntimeError 403
              "https://api.miro.com/v2/boards/b1/items?type=image&limit=50"
              "Forbidden"),
     add_requests (initial_state ∅)
       [ Request GET
           "https://api.miro.com/v2/boards/b1/items?type=image&limit=50"
           "Bearer tok" ],
     [LScanning "image"])
  ∧ status_code
      <$> forbidden_images 1%nat
            (get_request demo_args (first_page_url "b1" "document"))
    = Some 200.
Proof. by split. Qed.

(** A listing that comes to a refused request raises there, in the state
    right after that request. *)
Lemma exec_get_items_from_reaches_refusal {S} server board_id token
    (body : item → S → M S) fuel url acc st url' resp' st' :
  reaches_refusal server board_id token body fuel url acc st url' resp' st' →
  exec (get_items_from server fuel board_id token url body acc) st
  = (Raise (RuntimeError (status_code resp') url' (text resp')),
     add_requests st' [Request GET url' (bearer token)]).
Proof.
  induction 1 as [fuel url acc st resp Hsrv Hstatus
                 |fuel url acc st resp data acc' st1 cursor url' resp' st'
                    Hsrv Hstatus Hjson Hbody Hcursor _ IH].
  - by apply exec_get_items_from_refused.
  - rewrite (exec_get_items_from_step _ _ _ _ _ _ _ _ resp data) by done.
    by rewrite Hbody, Hcursor.
Qed.

Lemma exec_scan_type_reaches_refusal server fuel args t st url resp st' :
  reaches_refusal server (board args) (token args) (count_item server args t)
    fuel (first_page_url (board args) t) 0%nat st url resp st' →
  exec (scan_type server fuel args t) st
  = (Raise (RuntimeError (status_code resp) url (text resp)),
     add_requests st' [get_request args url]).
Proof.
  intros Hreach. unfold scan_type, get_items.
  rewrite exec_bind, exec_print, exec_bind.
  change (λ (it : item) (n : nat), process_item server args t it;;; ret (S n))
    with (count_item server args t).
  by rewrite (exec_get_items_from_reaches_refusal _ _ _ _ _ _ _ _ _ _ _ Hreach).
Qed.

(** C1, amended.  An exception that ends the scan of one item type ends the
    run in that very state: nothing in [main] catches it, so no later item
    type is scanned.  In particular, when any listing request of an item
    type, for its first page or for a page named by a cursor, is answered
    with another status than 200, the run ends with a [RuntimeError]
    carrying the status, the URL and the body of that answer, and that
    request is the last one issued. *)
Theorem listing_error_ends_run (server : remote) (fuel : nat) (args : Args)
    (fs : gmap string string) (pre : list string) (t : string)
    (post : list string) (st1 : state) :
  scanned_types = pre ++ t :: post →
  exec (for_each pre (scan_type server fuel args)) (initial_state fs)
  = (Ok tt, st1) →
  (∀ e st2,
     exec (scan_type server fuel args t) st1 = (Raise e, st2) →
     exec (main server fuel args) (initial_state fs) = (Raise e, st2))
  ∧ (∀ url resp st2,
       reaches_refusal server (board args) (token args)
         (count_item server args t) fuel (first_page_url (board args) t)
         0%nat st1 url resp st2 →
       exec (main server fuel args) (initial_state fs)
       = (Raise (RuntimeError (status_code resp) url (text resp)),
          add_requests st2 [get_request args url])).
Proof.
  intros Htypes Hpre.
  assert (Hprop : ∀ e st2,
            exec (scan_type server fuel args t) st1 = (Raise e, st2) →
            exec (main server fuel args) (initial_state fs) = (Raise e, st2)).
  { intros e st2 Ht. unfold main. rewrite exec_bind, Htypes.
    by rewrite (exec_for_each_raise _ pre t post _ st1 e st2). }
  split; [exact Hprop|].
  intros url resp st2 Hreach. apply Hprop.
  by apply exec_scan_type_reaches_refusal.
Qed.

(** The listing of image items, the first type scanned, is refused at its
    second page: the item of the first page has been processed, and the run
    ends after the two listing requests. *)
Lemma listing_error_ends_run_witness :
  exec (main second_page_refused 3 demo_args) (initial_state ∅)
  = (Raise (RuntimeError 500 (next_page_url "b1" "c2")
              "Internal Server Error"),
     add_requests (initial_state ∅)
       [get_request demo_args (first_page_url "b1" "image");
        get_request demo_args (next_page_url "b1" "c2")]).
Proof.
  refine (proj2 (listing_error_ends_run second_page_refused 3 demo_args ∅
                   [] "image"
                   ["document"; "shape"; "sticky_note"; "text"; "frame";
                    "app_card"]
                   (initial_state ∅) eq_refl eq_refl)
            (next_page_url "b1" "c2")
            (Response 500 [] "Internal Server Error" "Internal Server Error"
               None)
            (add_requests (initial_state ∅)
               [get_request demo_args (first_page_url "b1" "image")]) _).
  eapply refusal_later; [reflexivity..|].
  eapply refusal_here; [reflexivity|discriminate].
Defined.

(** ** The flag for document items *)

(** C2, on the code: the flag is never read, so a run ends the same way in
    the same state with and without it, and a run without it requests the
    listing of document items right after that of image items. *)
Theorem document_items_scanned_without_flag :
  (∀ server fuel b t o q fs,
     exec (main server fuel (MkArgs b t o true q)) (initial_state fs)
     = exec (main server fuel (MkArgs b t o false q)) (initial_state fs))
  ∧ include_docs demo_args = false
  ∧ req_url <$> requests (final (run empty_board 1 demo_args ∅))
    = [ "https://api.miro.com/v2/boards/b1/items?type=image&limit=50";
        "https://api.miro.com/v2/boards/b1/items?type=document&limit=50";
        "https://api.miro.com/v2/boards/b1/items?type=shape&limit=50";
        "https://api.miro.com/v2/boards/b1/items?type=sticky_note&limit=50";
        "https://api.miro.com/v2/boards/b1/items?type=text&limit=50";
        "https://api.miro.com/v2/boards/b1/items?type=frame&limit=50";
        "https://api.miro.com/v2/boards/b1/items?type=app_card&limit=50" ].
Proof.
  split; [|split; reflexivity].
  intros server fuel b t o q fs. by apply same_effects_main.
Qed.

(** ** Naming and saving a matched item *)

Lemma exec_get_filename_from_headers server token url st :
  exec (get_filename_from_headers server token url) st
  = (Ok match server (length (requests st)) (Request HEAD url (bearer token)) with
        | Some r =>
            if status_code r =? 200
            then filename_from_disposition
                   (headers_get "content-disposition" (headers r))
            else None
        | None => None
        end,
     add_requests st [Request HEAD url (bearer token)]).
Proof.
  unfold get_filename_from_headers. rewrite exec_bind, exec_send.
  destruct (server _ _) as [r|]; [|done].
  by destruct (_ =? _).
Qed.

Lemma no_filename_recovered_truthy (o : option response) :
  no_filename_recovered o →
  truthy match o with
         | Some r =>
             if status_code r =? 200
             then filename_from_disposition
                    (headers_get "content-disposition" (headers r))
             else None
         | None => None
         end = None.
Proof.
  destruct o as [r|]; [|done]. simpl.
  intros [H|[H|H]].
  - apply Z.eqb_neq in H. by rewrite H.
  - rewrite H. by destruct (_ =? _).
  - by destruct (_ =? _).
Qed.






(** ** Conflicting names in a run *)

(** Two items whose recovered name is the same lower-case name: the second
    one gets the counter in front of the extension. *)
Example two_reports :
  files (final (run (two_images [("Content-Disposition", disposition "report.svg")])
                  3 demo_args ∅))
  = <["/out/report_1.svg" := svg_body]> (<["/out/report.svg" := svg_body]> ∅).
Proof. vm_compute. reflexivity. Qed.

(** C6, on the code: two items whose recovered name has the extension in
    upper case.  The name passes the case-insensitive test of line 187
    unchanged, the case-sensitive [rsplit] of line 204 does not find an
    extension to take off, and the second file gets counter and extension
    after the whole name.  When an inner lower-case extension precedes the
    upper-case one, the stem is cut there. *)
Theorem uppercase_extension_conflict :
  files (final (run (two_images [("Content-Disposition", disposition "FOO.SVG")])
                  3 demo_args ∅))
  = <["/out/FOO.SVG_1.svg" := svg_body]> (<["/out/FOO.SVG" := svg_body]> ∅)
  ∧ safe_filename "FOO.SVG" = "FOO.SVG"
  ∧ numbered (PyStr.rsplit1_head ".svg" (safe_filename "FOO.SVG")) 1
    = "FOO.SVG_1.svg"
  ∧ numbered (PyStr.rsplit1_head ".svg" (safe_filename "plan.svg.SVG")) 1
    = "plan_1.svg".
Proof. repeat split; vm_compute; reflexivity. Qed.

(** ** The summary counters *)

Lemma download_keeps_counters server token url dest st :
  counters (final (download server token url dest st)) = counters st.
Proof.
  unfold download, bind, send, raise_for_status, final. simpl.
  destruct (server _ _) as [r|]; [|done].
  by destruct (_ && _).
Qed.

Lemma exec_save server args src dest original st :
  exec (save server args src dest original) st =
  match exec (download server (token args) src dest) st with
  | (Ok _, st1) => (Ok tt, final (count_saved original st1))
  | (Raise e, st1) => exec (print_stderr (LFailedDownload src e)) st1
  | (OutOfFuel, st1) => (OutOfFuel, st1)
  end.
Proof.
  unfold save. rewrite exec_try_except, exec_bind.
  destruct (exec (download _ _ _ _) st) as [[[]|e|] st1]; [|done..].
  rewrite exec_bind. unfold exec at 1. cbn [count_saved fst].
  by rewrite exec_unless_quiet.
Qed.

(** C9.  However a run ends (normally, by an exception that escapes, or out
    of fuel), the number of files saved is the number saved under a
    recovered name plus the number saved under a generated name.  The
    counters change in one place only: a download that succeeds adds one to
    the total and to exactly one of the two others, and a download that
    fails adds nothing. *)
Theorem counters_add_up (server : remote) :
  (∀ fuel args fs,
     let st := final (run server fuel args fs) in
     total_saved st
     = (files_with_original_names st + files_with_generated_names st)%nat)
  ∧ (∀ args src dest original st,
       let st' := final (save server args src dest original st) in
       match outcome (download server (token args) src dest st) with
       | Ok _ =>
           counters st'
           = (S (total_saved st),
              if original then S (files_with_original_names st)
              else files_with_original_names st,
              if original then files_with_generated_names st
              else S (files_with_generated_names st))
       | _ => counters st' = counters st
       end).
Proof.
  split.
  - intros fuel args fs.
    apply (preserves_main server counters_ok counters_ok_frame fuel args).
    reflexivity.
  - intros args src dest original st.
    pose proof (exec_save server args src dest original st) as Hsave.
    pose proof (download_keeps_counters server (token args) src dest st) as Hd.
    rewrite !exec_outcome_final in Hsave.
    destruct (outcome (download server (token args) src dest st)) as [[]|e|];
      injection Hsave as _ Hst; cbn zeta; rewrite Hst.
    + unfold counters in *. simpl. injection Hd as -> -> ->.
      by destruct original.
    + exact Hd.
    + exact Hd.
Qed.

(** * Further properties of the script *)

(** ** Reading the Content-Disposition header *)

(** Comparisons with a literal character stay folded from here on. *)
Arguments Ascii.eqb : simpl never.

Lemma drop_prefix_app p s : PyStr.drop_prefix p (p +:+ s) = Some s.
Proof.
  induction p as [|c p IH]; [done|].
  rewrite app_cons. simpl. by rewrite Ascii.eqb_refl.
Qed.

Lemma drop_prefix_startswith p s r :
  PyStr.drop_prefix p s = Some r → PyStr.startswith p s = true.
Proof.
  revert s. induction p as [|a p IH]; intros [|b s]; simpl; try done.
  destruct (Ascii.eqb a b); [apply IH|done].
Qed.

Lemma startswith_app_l p q s :
  PyStr.startswith (p +:+ q) s = true → PyStr.startswith p s = true.
Proof.
  revert s. induction p as [|a p IH]; intros s; [done|].
  rewrite app_cons. destruct s as [|b s]; simpl; [done|].
  destruct (Ascii.eqb a b); [apply IH|done].
Qed.

Lemma span_app f name c post :
  all_chars f name = true → f c = false →
  PyStr.span f (name +:+ String c post) = (name, String c post).
Proof.
  intros Hname Hc. induction name as [|a name IH].
  - rewrite app_empty_l. simpl. by rewrite Hc.
  - rewrite app_cons. simpl in *.
    apply andb_true_iff in Hname as [Ha Hname].
    by rewrite Ha, (IH Hname).
Qed.

Lemma span_all f name :
  all_chars f name = true → PyStr.span f name = (name, EmptyString).
Proof.
  induction name as [|a name IH]; simpl; [done|].
  intros [Ha Hname]%andb_true_iff. by rewrite Ha, (IH Hname).
Qed.

Lemma quoted_at_startswith s g :
  quoted_at s = Some g → PyStr.startswith "filename=" s = true.
Proof.
  unfold quoted_at.
  destruct (PyStr.drop_prefix _ s) as [rest|] eqn:E; [|done].
  intros _. apply drop_prefix_startswith in E.
  by apply (startswith_app_l "filename=" (String dquote EmptyString)).
Qed.

Lemma unquoted_at_startswith s g :
  unquoted_at s = Some g → PyStr.startswith "filename=" s = true.
Proof.
  unfold unquoted_at.
  destruct (PyStr.drop_prefix _ s) as [rest|] eqn:E; [|done].
  intros _. by apply drop_prefix_startswith in E.
Qed.

Lemma startswith_key_not_f c t :
  not_f c = true → PyStr.startswith "filename=" (String c t) = false.
Proof.
  unfold not_f. intros H. simpl.
  rewrite Ascii.eqb_sym. by destruct (Ascii.eqb c "f").
Qed.

(** No match starts where the key does not. *)
Lemma re_search_none at_pos s :
  (∀ t g, at_pos t = Some g → PyStr.startswith "filename=" t = true) →
  PyStr.contains "filename=" s = false →
  re_search at_pos s = None.
Proof.
  intros Hat. induction s as [|c s IH]; intros Hs.
  - simpl. destruct (at_pos EmptyString) as [g|] eqn:E; [|done].
    by apply Hat in E.
  - change (PyStr.contains "filename=" (String c s))
      with (PyStr.startswith "filename=" (String c s)
            || PyStr.contains "filename=" s) in Hs.
    apply orb_false_iff in Hs as [Hhere Hlater].
    simpl. destruct (at_pos (String c s)) as [g|] eqn:E.
    + apply Hat in E. congruence.
    + by apply IH.
Qed.

(** The search passes over a stretch without the first letter of the key. *)
Lemma re_search_skip at_pos pre s :
  (∀ t g, at_pos t = Some g → PyStr.startswith "filename=" t = true) →
  all_chars not_f pre = true →
  re_search at_pos (pre +:+ String "f" s) = re_search at_pos (String "f" s).
Proof.
  intros Hat. induction pre as [|c pre IH]; [done|].
  intros H. simpl in H. apply andb_true_iff in H as [Hc Hpre].
  rewrite app_cons.
  change (re_search at_pos (String c (pre +:+ String "f" s)))
    with (match at_pos (String c (pre +:+ String "f" s)) with
          | Some g => Some g
          | None => re_search at_pos (pre +:+ String "f" s)
          end).
  destruct (at_pos (String c _)) as [g|] eqn:E; [|by apply IH].
  apply Hat in E. by rewrite startswith_key_not_f in E.
Qed.

Lemma contains_quote_free s :
  all_chars not_quote s = true →
  PyStr.contains ("filename=" +:+ String dquote EmptyString) s = false.
Proof.
  assert (Hsw : ∀ p t, all_chars not_quote t = true →
            PyStr.startswith (p +:+ String dquote EmptyString) t = false).
  { induction p as [|a p IHp]; intros [|b t]; try done.
    - rewrite app_empty_l. simpl. intros [Hb _]%andb_true_iff.
      unfold not_quote in Hb. rewrite Ascii.eqb_sym.
      by destruct (Ascii.eqb b dquote).
    - rewrite app_cons. simpl. intros [_ Ht]%andb_true_iff.
      rewrite (IHp t Ht). apply andb_false_r. }
  induction s as [|c s IH]; intros Hs.
  - done.
  - change (PyStr.contains ("filename=" +:+ String dquote EmptyString)
              (String c s))
      with (PyStr.startswith ("filename=" +:+ String dquote EmptyString)
              (String c s)
            || PyStr.contains ("filename=" +:+ String dquote EmptyString) s).
    rewrite (Hsw "filename=" _ Hs). simpl in Hs.
    apply andb_true_iff in Hs as [_ Hs]. by rewrite IH.
Qed.

Lemma re_search_quoted_none s :
  all_chars not_quote s = true → re_search quoted_at s = None.
Proof.
  intros Hs. pose proof (contains_quote_free s Hs) as Hc.
  clear Hs. induction s as [|c s IH].
  - reflexivity.
  - change (PyStr.contains ("filename=" +:+ String dquote EmptyString)
              (String c s))
      with (PyStr.startswith ("filename=" +:+ String dquote EmptyString)
              (String c s)
            || PyStr.contains ("filename=" +:+ String dquote EmptyString) s)
      in Hc.
    apply orb_false_iff in Hc as [Hhere Hlater].
    simpl. unfold quoted_at at 1.
    destruct (PyStr.drop_prefix _ (String c s)) as [r|] eqn:E.
    + apply drop_prefix_startswith in E. congruence.
    + by apply IH.
Qed.

Lemma app_empty_r_str (s : string) : s +:+ EmptyString = s.
Proof. induction s as [|c s IH]; [done|]. rewrite app_cons. by f_equal. Qed.

Lemma re_search_here at_pos s g :
  at_pos s = Some g → re_search at_pos s = Some g.
Proof. intros H. destruct s; simpl; by rewrite H. Qed.

Lemma nonempty_true s : s ≠ EmptyString → PyStr.nonempty s = true.
Proof. by destruct s. Qed.

Lemma quoted_at_key name post :
  all_chars not_quote name = true → name ≠ EmptyString →
  quoted_at ("filename=" +:+ String dquote (name +:+ String dquote post))
  = Some name.
Proof.
  intros Hname Hne. unfold quoted_at.
  change ("filename=" +:+ String dquote (name +:+ String dquote post))
    with (("filename=" +:+ String dquote EmptyString)
          +:+ (name +:+ String dquote post)).
  rewrite drop_prefix_app.
  rewrite (span_app (λ c, negb (Ascii.eqb c dquote)) name dquote post
             Hname eq_refl).
  rewrite (nonempty_true name Hne).
  change (PyStr.startswith (String dquote EmptyString) (String dquote post))
    with (Ascii.eqb dquote dquote && true).
  by rewrite Ascii.eqb_refl.
Qed.

(** X6.  A header that holds the key with a quoted, non-empty name gives
    that name back exactly, whatever follows the closing quote and whatever
    the name holds besides quotes (semicolons and blanks included), when
    the text before the key has no letter f for a match to start at. *)
Theorem quoted_filename_round_trip (pre name post : string) :
  all_chars not_f pre = true →
  all_chars not_quote name = true →
  name ≠ EmptyString →
  filename_from_disposition
    (pre +:+ "filename=" +:+ String dquote (name +:+ String dquote post))
  = Some name.
Proof.
  intros Hpre Hname Hne. unfold filename_from_disposition.
  assert (PyStr.nonempty
            (pre +:+ "filename=" +:+ String dquote (name +:+ String dquote post))
          = true) as -> by (by destruct pre).
  change ("filename=" +:+ String dquote (name +:+ String dquote post))
    with (String "f" ("ilename=" +:+ String dquote (name +:+ String dquote post))).
  rewrite (re_search_skip quoted_at pre _ quoted_at_startswith Hpre).
  change (String "f" ("ilename=" +:+ String dquote (name +:+ String dquote post)))
    with ("filename=" +:+ String dquote (name +:+ String dquote post)).
  by rewrite (re_search_here quoted_at _ name
                (quoted_at_key name post Hname Hne)).
Qed.

(** A name with a semicolon and a blank in it, between an attachment
    marker and a size parameter. *)
Lemma quoted_filename_round_trip_witness :
  filename_from_disposition
    ("attachment; " +:+ "filename=" +:+
       String dquote ("plan; final.svg" +:+ String dquote "; size=10"))
  = Some "plan; final.svg".
Proof.
  apply (quoted_filename_round_trip "attachment; " "plan; final.svg" "; size=10").
  - reflexivity.
  - reflexivity.
  - discriminate.
Defined.

Lemma unquoted_at_key name tail :
  all_chars not_semicolon name = true → name ≠ EmptyString →
  ends_token tail →
  unquoted_at ("filename=" +:+ name +:+ tail) = Some name.
Proof.
  intros Hname Hne Htail. unfold unquoted_at.
  rewrite drop_prefix_app.
  assert (PyStr.span (λ c, negb (Ascii.eqb c ";")) (name +:+ tail)
          = (name, tail)) as ->.
  { destruct tail as [|c tail].
    - rewrite app_empty_r_str. by apply span_all.
    - simpl in Htail. subst c. by apply span_app. }
  by rewrite (nonempty_true name Hne).
Qed.

(** X7.  A header without any double quote that holds the key followed by
    a non-empty run without semicolon, up to a semicolon or the end, gives
    that run with the whitespace at both ends taken off (an empty string
    when the run is whitespace only), when the text before the key has no
    letter f for a match to start at. *)
Theorem unquoted_filename_is_trimmed (pre name tail : string) :
  all_chars not_f pre = true →
  all_chars not_quote (pre +:+ name +:+ tail) = true →
  all_chars not_semicolon name = true →
  name ≠ EmptyString →
  ends_token tail →
  filename_from_disposition (pre +:+ "filename=" +:+ name +:+ tail)
  = Some (PyStr.strip PyStr.isspace name).
Proof.
  intros Hpre Hq Hname Hne Htail. unfold filename_from_disposition.
  assert (PyStr.nonempty (pre +:+ "filename=" +:+ name +:+ tail) = true)
    as -> by (by destruct pre).
  rewrite re_search_quoted_none.
  2:{ rewrite !all_chars_app in *.
      apply andb_true_iff in Hq as [Hq1 Hq2]. by rewrite Hq1, Hq2. }
  change ("filename=" +:+ name +:+ tail)
    with (String "f" ("ilename=" +:+ name +:+ tail)).
  rewrite (re_search_skip unquoted_at pre _ unquoted_at_startswith Hpre).
  change (String "f" ("ilename=" +:+ name +:+ tail))
    with ("filename=" +:+ name +:+ tail).
  by rewrite (re_search_here unquoted_at _ name
                (unquoted_at_key name tail Hname Hne Htail)).
Qed.

(** A padded name in front of a size parameter. *)
Lemma unquoted_filename_is_trimmed_witness :
  filename_from_disposition
    ("attachment; " +:+ "filename=" +:+ " logo v2.svg " +:+ "; size=3")
  = Some "logo v2.svg".
Proof.
  apply (unquoted_filename_is_trimmed "attachment; " " logo v2.svg " "; size=3").
  - reflexivity.
  - reflexivity.
  - reflexivity.
  - discriminate.
  - reflexivity.
Defined.

(** X8.  A header in which the key does not occur gives no name, whatever
    else it holds. *)
Theorem header_without_key_gives_no_name (header : string) :
  PyStr.contains "filename=" header = false →
  filename_from_disposition header = None.
Proof.
  intros H. unfold filename_from_disposition.
  destruct (PyStr.nonempty header); [|done].
  rewrite (re_search_none quoted_at header quoted_at_startswith H).
  by rewrite (re_search_none unquoted_at header unquoted_at_startswith H).
Qed.

(** A header that names the file in the extended form only. *)
Lemma header_without_key_gives_no_name_witness :
  filename_from_disposition "attachment; filename*=UTF-8''plan.svg" = None.
Proof.
  apply (header_without_key_gives_no_name
           "attachment; filename*=UTF-8''plan.svg").
  reflexivity.
Defined.

(** ** What a sanitised name looks like *)

Lemma replace_illegal_legal c : legal_char (replace_illegal c) = true.
Proof. by destruct c as [[] [] [] [] [] [] [] []]. Qed.

Lemma all_chars_map_legal s :
  all_chars legal_char (PyStr.map replace_illegal s) = true.
Proof.
  induction s as [|c s IH]; simpl; [done|].
  by rewrite replace_illegal_legal, IH.
Qed.

Lemma all_chars_lstrip P f s :
  all_chars P s = true → all_chars P (PyStr.lstrip f s) = true.
Proof.
  induction s as [|c s IH]; simpl; [done|].
  intros [Hc Hs]%andb_true_iff.
  destruct (f c); [by apply IH|]. simpl. by rewrite Hc, Hs.
Qed.

Lemma all_chars_rstrip P f s :
  all_chars P s = true → all_chars P (PyStr.rstrip f s) = true.
Proof.
  induction s as [|c s IH]; simpl; [done|].
  intros [Hc Hs]%andb_true_iff. specialize (IH Hs).
  destruct (PyStr.rstrip f s) as [|d r].
  - destruct (f c); simpl; [done|]. by rewrite Hc.
  - change (all_chars P (String c (String d r)))
      with (P c && all_chars P (String d r)).
    by rewrite Hc, IH.
Qed.

Lemma endswith_nonempty suf s :
  suf ≠ EmptyString → PyStr.endswith suf s = true → s ≠ EmptyString.
Proof. intros Hsuf H ->. destruct suf; [done|]. discriminate. Qed.

(** X9.  Whatever name is recovered, the sanitised name is fit for the
    output directory: none of the nine characters of line 183 is left in
    it (so no path separator either), it ends in the extension in some
    mix of cases, it does not end in a dot or a space, and it is not
    empty. *)
Theorem safe_filename_is_safe (original_filename : string) :
  all_chars legal_char (safe_filename original_filename) = true
  ∧ PyStr.endswith ".svg" (PyStr.lower (safe_filename original_filename)) = true
  ∧ PyStr.rstrip dot_or_space (safe_filename original_filename)
    = safe_filename original_filename
  ∧ safe_filename original_filename ≠ EmptyString.
Proof.
  rewrite safe_filename_unfold. cbn zeta.
  set (t := PyStr.strip dot_or_space (PyStr.map replace_illegal original_filename)).
  assert (Hlegal : all_chars legal_char t = true).
  { apply all_chars_rstrip, all_chars_lstrip, all_chars_map_legal. }
  assert (Hstrip : PyStr.rstrip dot_or_space t = t) by apply rstrip_idem.
  destruct (PyStr.endswith ".svg" (PyStr.lower t)) eqn:E.
  - repeat split; try done.
    intros ->. discriminate.
  - split; [by rewrite all_chars_app, Hlegal|].
    split.
    { unfold PyStr.lower. rewrite map_app.
      change (PyStr.map PyStr.lower_char ".svg") with ".svg".
      apply endswith_app. }
    split; [by rewrite rstrip_app|].
    by destruct t.
Qed.

(** ** The content test *)

Lemma startswith_contains_suffix p q s :
  PyStr.startswith (p +:+ q) s = true → PyStr.contains q s = true.
Proof.
  revert s. induction p as [|a p IH]; intros s.
  - rewrite app_empty_l. intros H. destruct s; simpl in *; by rewrite H.
  - rewrite app_cons. destruct s as [|b s]; [done|].
    change (PyStr.startswith (String a (p +:+ q)) (String b s))
      with (Ascii.eqb a b && PyStr.startswith (p +:+ q) s).
    intros [_ H]%andb_true_iff. apply IH in H.
    change (PyStr.contains q (String b s))
      with (PyStr.startswith q (String b s) || PyStr.contains q s).
    rewrite H. apply orb_true_r.
Qed.

Lemma contains_suffix p q s :
  PyStr.contains (p +:+ q) s = true → PyStr.contains q s = true.
Proof.
  induction s as [|b s IH].
  - simpl. rewrite orb_false_r. apply startswith_contains_suffix.
  - change (PyStr.contains (p +:+ q) (String b s))
      with (PyStr.startswith (p +:+ q) (String b s)
            || PyStr.contains (p +:+ q) s).
    intros [H|H]%orb_true_iff.
    + by apply startswith_contains_suffix in H.
    + change (PyStr.contains q (String b s))
        with (PyStr.startswith q (String b s) || PyStr.contains q s).
      rewrite (IH H). apply orb_true_r.
Qed.

(** X5.  The last of the four tests of lines 146-151 never decides: a
    content type that contains image/svg contains svg, which the first test
    has already accepted.  The content test is the first three. *)
Theorem image_svg_test_is_redundant (ctype body : string) :
  is_svg_content ctype body
  = (PyStr.contains "svg" ctype
     || (PyStr.startswith "<?xml" (PyStr.strip PyStr.isspace body)
         && PyStr.contains "svg" (PyStr.take 200 body))
     || PyStr.startswith "<svg" (PyStr.strip PyStr.isspace body)).
Proof.
  unfold is_svg_content.
  destruct (PyStr.contains "image/svg" ctype) eqn:E; [|by rewrite orb_false_r].
  apply (contains_suffix "image/" "svg") in E. by rewrite E.
Qed.

(** ** Candidates of a URL without a query *)




(** ** What probing does to the state *)






(** ** One item, step by step *)

Lemma exec_choose_filename args it o st :
  exec (choose_filename args it o) st =
  match chosen_names it o with
  | Some names => (Ok names, st)
  | None => (Raise (KeyError "id"), st)
  end.
Proof.
  unfold choose_filename, chosen_names. destruct o as [name|]; [done|].
  destruct (item_id it); [|done].
  by rewrite exec_bind, exec_unless_quiet, exec_ret.
Qed.

Lemma exec_download server token url dest st :
  exec (download server token url dest) st =
  match server (length (requests st)) (Request GET url (bearer token)) with
  | None =>
      (Raise (RequestException (Request GET url (bearer token))),
       add_requests st [Request GET url (bearer token)])
  | Some r =>
      if (400 <=? status_code r) && (status_code r <? 600)
      then (Raise (HTTPError (status_code r)),
            add_requests st [Request GET url (bearer token)])
      else (Ok tt,
            State (requests st ++ [Request GET url (bearer token)])
              (<[dest := content r]> (files st)) (stderr st) (total_saved st)
              (files_with_original_names st) (files_with_generated_names st))
  end.
Proof.
  unfold download. rewrite exec_bind, exec_send.
  destruct (server _ _) as [r|]; [|done].
  rewrite exec_bind. unfold raise_for_status.
  by destruct (_ && _).
Qed.

Lemma exec_save_matched_item server args it src st :
  exec (save_matched_item server args it src) st =
  match chosen_names it (head_filename server args src st) with
  | None => (Raise (KeyError "id"), add_requests st [head_request args src])
  | Some names =>
      match resolve_conflict (S (size (files st))) (files st) (out args)
              (snd names) (fst names) 1 with
      | Some filename =>
          exec (save server args src (path_join (out args) filename)
                  (bool_decide (is_Some (head_filename server args src st))))
            (add_requests st [head_request args src])
      | None => (OutOfFuel, add_requests st [head_request args src])
      end
  end.
Proof.
  unfold save_matched_item.
  rewrite exec_bind, exec_get_filename_from_headers.
  fold (head_request args src). fold (head_filename server args src st).
  rewrite exec_bind.
  assert (Hmsg : ∀ st',
            exec (match head_filename server args src st with
                  | Some name => unless_quiet args (LOriginalFilename name)
                  | None => ret tt
                  end) st' = (Ok tt, st')).
  { intros st'. destruct (head_filename _ _ _ _);
      [apply exec_unless_quiet | apply exec_ret]. }
  rewrite Hmsg, exec_bind, exec_choose_filename.
  destruct (chosen_names _ _) as [names|]; [|done].
  rewrite exec_bind, exec_get_state. cbn [files add_requests].
  destruct (resolve_conflict _ _ _ _ _ _) as [filename|]; [|done].
  rewrite exec_bind.
  assert (Hmsg2 : ∀ (b : bool) l st',
            exec (if b then ret tt else unless_quiet args l) st' = (Ok tt, st')).
  { intros [] l st'; [apply exec_ret | apply exec_unless_quiet]. }
  by rewrite Hmsg2.
Qed.

Lemma exec_process_item server args item_type it st :
  exec (process_item server args item_type it) st =
  match exec (probe server args
                (download_urls_to_try (default EmptyString (item_imageUrl it))))
          st with
  | (Ok o, st1) =>
      match truthy o with
      | Some src => exec (save_matched_item server args it src) st1
      | None => (Ok tt, st1)
      end
  | (Raise e, st1) => (Raise e, st1)
  | (OutOfFuel, st1) => (OutOfFuel, st1)
  end.
Proof.
  unfold process_item. rewrite exec_bind, exec_unless_quiet, exec_bind.
  destruct (exec (probe _ _ _) st) as [[o|e|] st1]; [|done..].
  destruct (truthy o); [done|]. apply exec_unless_quiet.
Qed.





(** X13.  A download that fails, because the request raises or because the
    final status is a client or server error, costs the item and nothing
    more: saving ends normally, the failure is one more line on stderr, no
    file is written and no counter moves. *)
Theorem failed_download_is_reported_not_counted (server : remote)
    (args : Args) (src dest : string) (original : bool) (st : state) :
  match server (length (requests st)) (get_request args src) with
  | Some r => 400 ≤ status_code r < 600
  | None => True
  end →
  exec (save server args src dest original) st
  = (Ok tt,
     State (requests st ++ [get_request args src]) (files st)
       (stderr st
        ++ [LFailedDownload src
              match server (length (requests st)) (get_request args src) with
              | Some r => HTTPError (status_code r)
              | None => RequestException (get_request args src)
              end])
       (total_saved st) (files_with_original_names st)
       (files_with_generated_names st)).
Proof.
  intros H. rewrite exec_save, exec_download. fold (get_request args src).
  destruct (server _ _) as [r|]; [|done].
  assert ((400 <=? status_code r) && (status_code r <? 600) = true) as ->.
  { apply andb_true_iff. rewrite Z.leb_le, Z.ltb_lt. lia. }
  done.
Qed.

(** The bare resource URL, which the board with two images answers 404. *)
Lemma failed_download_is_reported_not_counted_witness :
  exec (save (two_images []) demo_args "https://r.miro.com/x" "/out/42.svg"
          false) (initial_state ∅)
  = (Ok tt,
     State [get_request demo_args "https://r.miro.com/x"] ∅
       [LFailedDownload "https://r.miro.com/x" (HTTPError 404)] 0 0 0).
Proof.
  apply (failed_download_is_reported_not_counted (two_images []) demo_args
           "https://r.miro.com/x" "/out/42.svg" false (initial_state ∅)).
  simpl. lia.
Defined.

(** X14.  When the HEAD request of a matched item answers 200 with a
    header a non-empty name is read from, the file goes under the sanitised
    name: under that very name when it is free, in any case to a path that
    does not exist yet; and when the download succeeds the file is written
    there and counted as saved under an original name.  The identifier of
    the item plays no part: an item without one is saved all the same. *)
Theorem original_name_is_used (server : remote) (args : Args)
    (item_type : string) (it : item) (src name : string) (st0 st : state)
    (r : response) :
  exec (probe server args
          (download_urls_to_try (default EmptyString (item_imageUrl it)))) st0
  = (Ok (Some src), st) →
  PyStr.nonempty src = true →
  server (length (requests st)) (head_request args src) = Some r →
  status_code r = 200 →
  truthy (filename_from_disposition
            (headers_get "content-disposition" (headers r))) = Some name →
  ∃ filename,
    resolve_conflict (S (size (files st))) (files st) (out args)
      (PyStr.rsplit1_head ".svg" (safe_filename name)) (safe_filename name) 1
    = Some filename
    ∧ files st !! path_join (out args) filename = None
    ∧ (files st !! path_join (out args) (safe_filename name) = None →
       filename = safe_filename name)
    ∧ ∀ r',
        server (S (length (requests st))) (get_request args src) = Some r' →
        status_code r' < 400 ∨ 600 ≤ status_code r' →
        exec (process_item server args item_type it) st0
        = (Ok tt,
           State (requests st ++ [head_request args src; get_request args src])
             (<[path_join (out args) filename := content r']> (files st))
             (stderr st) (S (total_saved st))
             (S (files_with_original_names st))
             (files_with_generated_names st)).
Proof.
  intros Hprobe Hsrc Hhead Hstatus Hname.
  destruct (resolve_conflict_total (files st) (out args)
              (PyStr.rsplit1_head ".svg" (safe_filename name))
              (safe_filename name)) as [filename Hres].
  exists filename. split; [done|].
  split; [by eapply resolve_conflict_free|].
  split.
  { intros Hfree.
    rewrite (resolve_conflict_unchanged _ _ _ _ _ _ Hfree) in Hres. congruence. }
  intros r' Hget Hok.
  assert (Hhf : head_filename server args src st = Some name).
  { unfold head_filename. rewrite Hhead, Hstatus. exact Hname. }
  rewrite exec_process_item, Hprobe. unfold truthy at 1. rewrite Hsrc.
  rewrite exec_save_matched_item, Hhf. cbn [chosen_names fst snd].
  rewrite Hres, exec_save, exec_download.
  rewrite requests_add_requests, length_app. simpl length.
  rewrite Nat.add_1_r. fold (get_request args src). rewrite Hget.
  assert ((400 <=? status_code r') && (status_code r' <? 600) = false) as ->.
  { apply andb_false_iff. rewrite Z.leb_gt, Z.ltb_ge. lia. }
  assert (bool_decide (is_Some (Some name)) = true) as ->
    by (apply bool_decide_eq_true; by eexists).
  unfold final, count_saved. cbn. by rewrite <- app_assoc.
Qed.

(** An image without identifier on the board with two images, the HEAD
    request answered with a quoted name that needs sanitising. *)
Lemma original_name_is_used_witness :
  exec (process_item
          (two_images [("Content-Disposition", disposition "my: plan.SVG")])
          demo_args "image" (Item None (Some "https://r.miro.com/x?a=1")))
    (initial_state ∅)
  = (Ok tt,
     State
       ((get_request demo_args <$>
           [ "https://r.miro.com/x?format=original&redirect=true";
             "https://r.miro.com/x?redirect=true";
             "https://r.miro.com/x?format=original" ])
        ++ [ head_request demo_args "https://r.miro.com/x?format=original";
             get_request demo_args "https://r.miro.com/x?format=original" ])
       (<["/out/my_ plan.SVG" := svg_body]> ∅) [] 1 1 0).
Proof.
  destruct (original_name_is_used
              (two_images [("Content-Disposition", disposition "my: plan.SVG")])
              demo_args "image" (Item None (Some "https://r.miro.com/x?a=1"))
              "https://r.miro.com/x?format=original" "my: plan.SVG"
              (initial_state ∅)
              (add_requests (initial_state ∅)
                 (fmap (M:=list) (get_request demo_args)
                    [ "https://r.miro.com/x?format=original&redirect=true";
                      "https://r.miro.com/x?redirect=true";
                      "https://r.miro.com/x?format=original" ]))
              (Response 200
                 [("Content-Disposition", disposition "my: plan.SVG")]
                 EmptyString EmptyString None)
              eq_refl eq_refl eq_refl eq_refl eq_refl)
    as (filename & _ & _ & Hname & Hrun).
  rewrite (Hname eq_refl) in Hrun.
  apply (Hrun (Response 200 [("Content-Type", "text/plain")] svg_body
                 svg_body None) eq_refl).
  left. reflexivity.
Defined.

(** X15.  A matched item that has no identifier and for which no original
    name is recovered cannot be named: line 193 raises a [KeyError] right
    after the HEAD request, nothing is downloaded or written, and nothing
    in the loop over items catches the error. *)
Theorem missing_id_raises_key_error (server : remote) (args : Args)
    (item_type : string) (it : item) (src : string) (st0 st : state) :
  item_id it = None →
  exec (probe server args
          (download_urls_to_try (default EmptyString (item_imageUrl it)))) st0
  = (Ok (Some src), st) →
  PyStr.nonempty src = true →
  no_filename_recovered (server (length (requests st)) (head_request args src)) →
  exec (process_item server args item_type it) st0
  = (Raise (KeyError "id"), add_requests st [head_request args src]).
Proof.
  intros Hid Hprobe Hsrc Hno.
  rewrite exec_process_item, Hprobe. unfold truthy at 1. rewrite Hsrc.
  rewrite exec_save_matched_item. unfold head_filename.
  rewrite (no_filename_recovered_truthy _ Hno).
  unfold chosen_names. by rewrite Hid.
Qed.

(** The image of the board with two images, stripped of its identifier,
    the HEAD request answered without the header. *)
Lemma missing_id_raises_key_error_witness :
  exec (process_item (two_images []) demo_args "image"
          (Item None (Some "https://r.miro.com/x?a=1"))) (initial_state ∅)
  = (Raise (KeyError "id"),
     add_requests
       (add_requests (initial_state ∅)
          (get_request demo_args <$>
             [ "https://r.miro.com/x?format=original&redirect=true";
               "https://r.miro.com/x?redirect=true";
               "https://r.miro.com/x?format=original" ]))
       [head_request demo_args "https://r.miro.com/x?format=original"]).
Proof.
  apply (missing_id_raises_key_error (two_images []) demo_args "image"
           (Item None (Some "https://r.miro.com/x?a=1"))
           "https://r.miro.com/x?format=original" (initial_state ∅)
           (add_requests (initial_state ∅)
              (fmap (M:=list) (get_request demo_args)
                 [ "https://r.miro.com/x?format=original&redirect=true";
                   "https://r.miro.com/x?redirect=true";
                   "https://r.miro.com/x?format=original" ]))
           eq_refl eq_refl eq_refl).
  right. left. reflexivity.
Defined.

(** ** The conflict loop in general *)

(** X10.  Whatever the directory holds and whatever name and stem the loop
    of lines 200-209 starts from, it ends within one iteration more than
    there are files, at a path that does not exist: the name itself when
    that is free, otherwise the stem with the least counter from 1 on
    whose numbered name is free. *)
Theorem conflict_loop_finds_least_free (fs : gmap string string)
    (out_dir stem filename : string) :
  ∃ name,
    resolve_conflict (S (size fs)) fs out_dir stem filename 1 = Some name
    ∧ fs !! path_join out_dir name = None
    ∧ (fs !! path_join out_dir filename = None → name = filename)
    ∧ (is_Some (fs !! path_join out_dir filename) →
       ∃ k, (1 ≤ k ≤ S (size fs))%nat
            ∧ name = numbered stem k
            ∧ ∀ j, (1 ≤ j < k)%nat →
                   is_Some (fs !! path_join out_dir (numbered stem j))).
Proof.
  destruct (resolve_conflict_total fs out_dir stem filename) as [name H].
  exists name. split; [done|].
  split; [by eapply resolve_conflict_free|].
  split.
  - intros Hfree.
    rewrite (resolve_conflict_unchanged _ _ _ _ _ _ Hfree) in H. congruence.
  - intros [v Hv]. simpl in H. rewrite Hv in H.
    pose proof H as Hfuel.
    apply resolve_conflict_least in H as (k & Hk & -> & Hl).
    exists k. split; [|done].
    split; [done|].
    (* the counters below [k] are that many different files *)
    destruct (decide (k ≤ S (size fs))%nat) as [|Hbig]; [done|].
    exfalso.
    assert (Hall : ∀ j, (1 ≤ j ≤ S (size fs))%nat →
              is_Some (fs !! path_join out_dir (numbered stem j))).
    { intros j Hj. apply Hl. lia. }
    clear -Hall.
    assert (Hsub : ∀ n (m : gmap string string),
              (∀ j, (1 ≤ j ≤ n)%nat →
                    is_Some (m !! path_join out_dir (numbered stem j))) →
              (n ≤ size m)%nat).
    { induction n as [|n IH]; intros m Hm; [lia|].
      destruct (Hm (S n) ltac:(lia)) as [v Hv].
      specialize (IH (delete (path_join out_dir (numbered stem (S n))) m)).
      rewrite map_size_delete, Hv in IH.
      assert (size m ≠ 0)%nat.
      { intros H0. apply map_size_empty_iff in H0. subst m.
        by rewrite lookup_empty in Hv. }
      enough (n ≤ pred (size m))%nat by lia.
      apply IH. intros j Hj. rewrite lookup_delete_ne; [apply Hm; lia|].
      intros Heq. apply path_join_inj, numbered_inj in Heq. lia. }
    specialize (Hsub (S (size fs)) fs Hall). lia.
Qed.

(** ** Names that need no sanitising *)

Lemma map_replace_legal s :
  all_chars legal_char s = true → PyStr.map replace_illegal s = s.
Proof.
  induction s as [|c s IH]; simpl; [done|].
  intros [Hc Hs]%andb_true_iff. rewrite (IH Hs). f_equal.
  unfold replace_illegal, legal_char in *. by destruct (illegal_char c).
Qed.

(** X18.  A recovered name that has none of the nine characters, neither
    starts nor ends with a dot or a space, and ends in the extension in
    some mix of cases is used as it is. *)
Theorem clean_name_is_kept (name : string) :
  all_chars legal_char name = true →
  PyStr.strip dot_or_space name = name →
  PyStr.endswith ".svg" (PyStr.lower name) = true →
  safe_filename name = name.
Proof.
  intros Hlegal Hstrip Hext. rewrite safe_filename_unfold. cbn zeta.
  by rewrite (map_replace_legal name Hlegal), Hstrip, Hext.
Qed.

(** A name with a blank and an upper-case extension. *)
Lemma clean_name_is_kept_witness :
  safe_filename "Site plan v2.SVG" = "Site plan v2.SVG".
Proof.
  apply (clean_name_is_kept "Site plan v2.SVG"); reflexivity.
Defined.

(** ** Files that are there before the run *)

(** A directory that already holds the file the first image would get:
    the old file stays, the new one gets a counter. *)
Lemma existing_files_kept_witness :
  files (final (run (two_images []) 3 demo_args {["/out/42.svg" := "old"]}))
  !! "/out/42.svg" = Some "old".
Proof.
  apply (existing_files_kept (two_images []) 3 demo_args
           {["/out/42.svg" := "old"]} "/out/42.svg" "old").
  reflexivity.
Defined.

Example rerun_into_the_same_directory :
  files (final (run (two_images []) 3 demo_args {["/out/42.svg" := "old"]}))
  = <["/out/43.svg" := svg_body]>
      (<["/out/42_1.svg" := svg_body]> {["/out/42.svg" := "old"]}).
Proof. vm_compute. reflexivity. Qed.
